(** * Spellcracker: the card resolver and the inline-command extractor

    A shallow embedding of
      - [src/WitchesRevel/api.js]      (index build, [getClosestCard] and the
                                        readers of the index),
      - the message-response module    ([execute], [parseInlineCommands],
                                        [parseCard]),
      - the two versions of [WitchesRevel/discord.js] ([cardToColor],
                                        [cardToStitchIconEmote],
                                        [formatCardText]),
      - the embed module               ([cardToEmbedBody], [cardToFooter]),
      - the alias-viewing command      ([autocomplete]),
      - the button registry            ([registerButton], [callButton]),
    and the properties of the specification that concern them.

    Text is ASCII: a JavaScript string is a [string] of bytes, so that
    [String.length] is the JS [length] and case mapping acts on [a-z]/[A-Z]
    only.

    An object literal used as a dictionary is a [gmap] of its own
    properties, and reading it goes through [JS.get], which also answers
    for the names inherited from [Object.prototype].  The card store is the
    array [data.cards] with the properties that [loadApiData] adds to it;
    it is modelled by the added properties, which is what the array holds
    for a catalogue none of whose titles is read to an array index, to
    [length], to [forEach] or to [__proto__] ([plainCatalogue]): such a
    catalogue is iterated as fetched when the index is built. *)

From Stdlib Require Import ZArith Ascii String List Lia Bool.
From stdpp Require Import base option gmap strings list.

Local Open Scope string_scope.

(** ** JavaScript string primitives used by the sources *)

Module JS.

(** [s.startsWith(q)] *)
Fixpoint startsWith (s q : string) {struct q} : bool :=
  match q with
  | EmptyString => true
  | String b q' =>
      match s with
      | EmptyString => false
      | String a s' => Ascii.eqb a b && startsWith s' q'
      end
  end.

(** [s.includes(q)] *)
Fixpoint includes (s q : string) : bool :=
  startsWith s q ||
  match s with
  | EmptyString => false
  | String _ s' => includes s' q
  end.

Definition upperChar (c : ascii) : ascii :=
  let n := nat_of_ascii c in
  if (97 <=? n)%nat && (n <=? 122)%nat then ascii_of_nat (n - 32) else c.

Definition lowerChar (c : ascii) : ascii :=
  let n := nat_of_ascii c in
  if (65 <=? n)%nat && (n <=? 90)%nat then ascii_of_nat (n + 32) else c.

Fixpoint mapChars (f : ascii -> ascii) (s : string) : string :=
  match s with
  | EmptyString => EmptyString
  | String c s' => String (f c) (mapChars f s')
  end.

(** [s.toUpperCase()] and [s.toLowerCase()] *)
Definition toUpperCase : string -> string := mapChars upperChar.
Definition toLowerCase : string -> string := mapChars lowerChar.

(** White space removed by [trim]: TAB, LF, VT, FF, CR and space. *)
Definition isWhiteSpace (c : ascii) : bool :=
  let n := nat_of_ascii c in
  ((9 <=? n)%nat && (n <=? 13)%nat) || (n =? 32)%nat.

Fixpoint trimStart (s : string) : string :=
  match s with
  | EmptyString => EmptyString
  | String c s' => if isWhiteSpace c then trimStart s' else s
  end.

Fixpoint trimEnd (s : string) : string :=
  match s with
  | EmptyString => EmptyString
  | String c s' =>
      match trimEnd s' with
      | EmptyString => if isWhiteSpace c then EmptyString else String c EmptyString
      | t => String c t
      end
  end.

(** [s.trim()] *)
Definition trim (s : string) : string := trimEnd (trimStart s).

(** [s.substring(from, to)] for [from <= to] *)
Definition substring (from to : nat) (s : string) : string :=
  String.substring from (to - from) s.

(** [s.split(/[ ]/)]: the pieces between single spaces; never empty. *)
Fixpoint splitSpace (s : string) : list string :=
  match s with
  | EmptyString => [EmptyString]
  | String c s' =>
      if Ascii.eqb c " " then EmptyString :: splitSpace s'
      else match splitSpace s' with
           | w :: ws => String c w :: ws
           | [] => [String c EmptyString]
           end
  end.

(** [s[0]] as it prints under [join]: [undefined] joins as the empty
    string. *)
Definition firstChar (s : string) : string :=
  match s with
  | EmptyString => EmptyString
  | String c _ => String c EmptyString
  end.

(** [ws.join] with the empty separator *)
Definition join (ws : list string) : string :=
  fold_right String.append EmptyString ws.

(** Truthiness of a value that is a string or [undefined]. *)
Definition truthy (v : option string) : bool :=
  match v with
  | Some s => negb (String.eqb s EmptyString)
  | None => false
  end.

(** [v ? yes(v) : no] for a value that is a string or [undefined]. *)
Definition ifTruthy {A : Type} (v : option string) (yes : string -> A) (no : A) : A :=
  match v with
  | Some s => if String.eqb s EmptyString then no else yes s
  | None => no
  end.

(** The names that an object literal inherits from [Object.prototype].
    Each reads as a function, [__proto__] as the prototype object itself:
    all of them are truthy. *)
Definition objectPrototypeNames : list string :=
  [ "constructor"; "__defineGetter__"; "__defineSetter__"; "hasOwnProperty";
    "__lookupGetter__"; "__lookupSetter__"; "isPrototypeOf";
    "propertyIsEnumerable"; "toString"; "valueOf"; "__proto__";
    "toLocaleString" ].

Definition inheritedName (key : string) : bool :=
  existsb (String.eqb key) objectPrototypeNames.

(** What [object[key]] reads on an object literal: an own property, or the
    member of [Object.prototype] of that name. *)
Inductive Property (V : Type) :=
| Own (value : V)
| Inherited (name : string).

Arguments Own {V} value.
Arguments Inherited {V} name.

(** [object[key]]; [None] is [undefined]. *)
Definition get {V : Type} (object : gmap string V) (key : string)
  : option (Property V) :=
  match object !! key with
  | Some value => Some (Own value)
  | None => if inheritedName key then Some (Inherited key) else None
  end.

(** Truthiness of [object[key]] for an object whose own values are
    strings. *)
Definition truthyProperty (v : option (Property string)) : bool :=
  match v with
  | Some (Own s) => negb (String.eqb s EmptyString)
  | Some (Inherited _) => true
  | None => false
  end.

(** The property key that an inherited member converts to when it is used
    as one: the source text of a built-in function, and [[object Object]]
    for the prototype object. *)
Definition memberKey (name : string) : string :=
  if String.eqb name "__proto__" then "[object Object]"
  else "function "
       ++ (if String.eqb name "constructor" then "Object" else name)
       ++ "() { [native code] }".

End JS.

(** ** Helpers of [Utility/text.js], [Utility/fuzzySearch.js] and
       [WitchesRevel/aliases.js]

    These modules are imported by the sources but are not part of the
    source tree.  The resolver and the extractor are written over an
    arbitrary implementation of them. *)

Record Utility := {
  normalise : string -> string;
  readId : string -> string;
  (** [None] stands for a call that yields no title (an empty candidate
      list). *)
  bestMatch : string -> list string -> option string;
  applyAlias : string -> string
}.

Module SpecModel.

(** Modelled from the spec: the word set of [normalise] (section 4.1),
    letters, digits and spaces; the letters are lower-case by the time the
    test is made. *)
Definition isWordChar (c : ascii) : bool :=
  let n := nat_of_ascii c in
  ((97 <=? n)%nat && (n <=? 122)%nat)
  || ((48 <=? n)%nat && (n <=? 57)%nat)
  || (n =? 32)%nat.

(** Modelled from the spec: the stripping step of [normalise]. *)
Fixpoint keepWordChars (s : string) : string :=
  match s with
  | EmptyString => EmptyString
  | String c s' =>
      if isWordChar c then String c (keepWordChars s') else keepWordChars s'
  end.

(** Modelled from the spec: the collapsing step of [normalise]; after the
    stripping step the only white space left is the space. *)
Fixpoint collapseSpaces (s : string) : string :=
  match s with
  | EmptyString => EmptyString
  | String c s' =>
      match s' with
      | String d _ =>
          if Ascii.eqb c " " && Ascii.eqb d " " then collapseSpaces s'
          else String c (collapseSpaces s')
      | EmptyString => String c EmptyString
      end
  end.

(** Modelled from the spec: [normalise] of [Utility/text.js] is not in the
    source tree.  Section 4.1: lower-cases, strips characters outside the
    word set (letters, digits, spaces), collapses consecutive white space
    to single spaces, trims the ends. *)
Definition normalise (s : string) : string :=
  JS.trim (collapseSpaces (keepWordChars (JS.toLowerCase s))).

(** Modelled from the spec: the distance scorer of
    [Utility/fuzzySearch.js] is not in the source tree.  Section 4.2:
    classic edit distance with unit-cost insertion, deletion and
    substitution (a common first character costs nothing). *)
Fixpoint levenshtein (a : string) : string -> nat :=
  fix against (b : string) : nat :=
    match a, b with
    | EmptyString, _ => String.length b
    | _, EmptyString => String.length a
    | String x a', String y b' =>
        if Ascii.eqb x y then levenshtein a' b'
        else S (Nat.min (levenshtein a' b)
                  (Nat.min (against b') (levenshtein a' b')))
    end.

(** Modelled from the spec: the running choice of [bestMatch]; a later
    title replaces the current one only when it is strictly closer, which
    is the tie-break by first occurrence. *)
Definition closer (query best title : string) : string :=
  if (levenshtein query title <? levenshtein query best)%nat
  then title else best.

(** Modelled from the spec: [bestMatch] of [Utility/fuzzySearch.js] is not
    in the source tree.  Section 4.4, step 4: the title with minimum edit
    distance to the query, ties broken by first occurrence in iteration
    order. *)
Definition bestMatch (query : string) (titles : list string) : option string :=
  match titles with
  | [] => None
  | t :: ts => Some (fold_left (closer query) ts t)
  end.

(** Modelled from the spec: [applyAlias] of [WitchesRevel/aliases.js] is
    not in the source tree.  Section 4.5: normalises the input and looks it
    up in the alias map; the mapped canonical query if present, else the
    normalised input. *)
Definition applyAlias (aliases : gmap string string) (rawQuery : string) : string :=
  let q := normalise rawQuery in
  match aliases !! q with
  | Some canonical => canonical
  | None => q
  end.

End SpecModel.

(** ** The data of [src/WitchesRevel/api.js] *)

(** A card of the API.  Only the fields the modelled code reads are kept:
    [card.id], [card.fullNames.frontFace], [card.frontFace.stitchIcon] and
    [card.frontFace.typeLine]. *)
Record Card := {
  id : string;
  fullNames_frontFace : string;
  frontFace_stitchIcon : option string;
  frontFace_typeLine : string
}.

Record Expansion := {
  expansion_id : string;
  collationName : string
}.

(** The parsed body of [cards/all.json].  A field is [None] when the
    document lacks it. *)
Record ApiData := {
  data_cards : option (list Card);
  data_expansions : option (list Expansion)
}.

(** What [fetch(url)] settles to: a rejection, or a response with its [ok]
    flag and the outcome of [response.json()] ([None] when the body does not
    parse). *)
Inductive FetchOutcome :=
| NetworkFailure
| Responded (ok : bool) (json : option ApiData).

(** The global [DATA] ([WrData]).  [cards] is [None] when [DATA.cards] is
    [undefined]; otherwise it holds the properties that [loadApiData] adds
    to the array [data.cards], each card under the key its title is read
    to.  The dictionaries hold their own properties. *)
Record WrData := {
  cards : option (gmap string Card);
  normalisedCardTitles : list string;
  normalisedToUnnormalisedCardTitles : gmap string string;
  acronymsToCardIds : gmap string string;
  mappedCardTitles : gmap string (list string);
  expansions : gmap string Expansion
}.

(** How a call ends. *)
Inductive Completion := Returned | Threw.

(** [fetchData]: lines 106-117.  [None] is the thrown
    [Error("Failed to load data from API: ...")]. *)
Definition fetchData (r : FetchOutcome) : option ApiData :=
  match r with
  | NetworkFailure => None
  | Responded ok json => if negb ok then None else json
  end.

Section Api.

Variable U : Utility.

(** Lines 59-61: [DATA.cards[readId(card.fullNames.frontFace)] = card],
    for the cards of a catalogue that satisfies [plainCatalogue]: the
    assignments then add properties to the array and leave its elements and
    its [forEach] as they are. *)
Definition cacheCards (cs : list Card) : gmap string Card :=
  fold_left (fun m card => <[readId U (fullNames_frontFace card) := card]> m) cs ∅.

(** Lines 72-75. *)
Definition acronymOf (normalised : string) : string :=
  JS.join (map JS.firstChar (JS.splitSpace normalised)).

(** The three structures filled by the loop of lines 67-79. *)
Record Titles := {
  t_titles : list string;
  t_denormalise : gmap string string;
  t_acronyms : gmap string string
}.

(** One iteration of the loop of lines 67-79.  The guard of line 76 reads
    [DATA.acronymsToCardIds[acronym]], which is truthy for an own non-empty
    identifier and for a name inherited from [Object.prototype]. *)
Definition cacheTitle (acc : Titles) (card : Card) : Titles :=
  let normalised := normalise U (fullNames_frontFace card) in
  let acronym := acronymOf normalised in
  {| t_titles := (t_titles acc ++ [normalised])%list;
     t_denormalise := <[normalised := fullNames_frontFace card]> (t_denormalise acc);
     t_acronyms :=
       if negb (JS.truthyProperty (JS.get (t_acronyms acc) acronym))
       then <[acronym := id card]> (t_acronyms acc)
       else t_acronyms acc |}.

Definition cacheTitles (cs : list Card) : Titles :=
  fold_left cacheTitle cs
    {| t_titles := []; t_denormalise := ∅; t_acronyms := ∅ |}.

(** [title[0]] as a property key: [undefined] for the empty title. *)
Definition firstCharKey (title : string) : string :=
  match title with
  | EmptyString => "undefined"
  | String c _ => String c EmptyString
  end.

(** One iteration of the loop of lines 84-91. *)
Definition mapTitle (m : gmap string (list string)) (title : string)
  : gmap string (list string) :=
  let char := firstCharKey title in
  match m !! char with
  | Some bucket => <[char := (bucket ++ [title])%list]> m
  | None => <[char := [title]]> m
  end.

(** Lines 95-97. *)
Definition cacheExpansions (es : list Expansion) : gmap string Expansion :=
  fold_left (fun m e => <[expansion_id e := e]> m) es ∅.

(** [loadApiData], lines 54-98, on the global [DATA], given what the fetch
    settles to.  The assignments happen in place, in program order; a
    [TypeError] ([forEach] of [undefined]) leaves [DATA] as it is at that
    point.  The loops of lines 59 and 67 run over the array that line 58
    stores in [DATA.cards]; for a catalogue that satisfies [plainCatalogue]
    its elements are the cards of the snapshot, in order, all along. *)
Definition loadApiData (DATA : WrData) (r : FetchOutcome) : WrData * Completion :=
  match fetchData r with
  | None => (DATA, Threw)
  | Some data =>
      match data_cards data with
      | None =>
          (* DATA.cards = undefined; data.cards.forEach throws *)
          ({| cards := None;
              normalisedCardTitles := normalisedCardTitles DATA;
              normalisedToUnnormalisedCardTitles := normalisedToUnnormalisedCardTitles DATA;
              acronymsToCardIds := acronymsToCardIds DATA;
              mappedCardTitles := mappedCardTitles DATA;
              expansions := expansions DATA |}, Threw)
      | Some cs =>
          let ts := cacheTitles cs in
          let mapped := fold_left mapTitle (t_titles ts) ∅ in
          match data_expansions data with
          | None =>
              (* DATA.expansions = {}; data.expansions.forEach throws *)
              ({| cards := Some (cacheCards cs);
                  normalisedCardTitles := t_titles ts;
                  normalisedToUnnormalisedCardTitles := t_denormalise ts;
                  acronymsToCardIds := t_acronyms ts;
                  mappedCardTitles := mapped;
                  expansions := ∅ |}, Threw)
          | Some es =>
              ({| cards := Some (cacheCards cs);
                  normalisedCardTitles := t_titles ts;
                  normalisedToUnnormalisedCardTitles := t_denormalise ts;
                  acronymsToCardIds := t_acronyms ts;
                  mappedCardTitles := mapped;
                  expansions := cacheExpansions es |}, Returned)
          end
      end
  end.

(** [getCard], lines 168-170, for a key that [loadApiData] has added or
    could add to the card store.  [None] is [undefined] (and the
    [TypeError] of reading a property of an undefined [DATA.cards]). *)
Definition getCard (DATA : WrData) (cardId : string) : option Card :=
  match cards DATA with
  | Some store => store !! cardId
  | None => None
  end.

(** The guard of lines 139-143. *)
Definition acronymShortcut (DATA : WrData) (input : string) : bool :=
  let query := normalise U input in
  (1 <? String.length query)%nat
  && String.eqb (JS.toUpperCase input) input
  && JS.truthyProperty (JS.get (acronymsToCardIds DATA) query).

(** Lines 148-159: the title handed to [readId]. *)
Definition closestTitle (DATA : WrData) (query : string) : option string :=
  let superStrings :=
    List.filter (fun title => JS.includes title query) (normalisedCardTitles DATA) in
  let leadingStrings :=
    List.filter (fun title => JS.startsWith title query) superStrings in
  if (0 <? List.length leadingStrings)%nat then bestMatch U query leadingStrings
  else if (0 <? List.length superStrings)%nat then bestMatch U query superStrings
  else bestMatch U query (normalisedCardTitles DATA).

(** [getClosestCard], lines 135-162.  [None] is [undefined], and also the
    case of no title to read an identifier from.  In the branch of the
    shortcut the value read from the acronym index is the key handed to
    [getCard]: an identifier, or an inherited member, which converts to
    [JS.memberKey]. *)
Definition getClosestCard (DATA : WrData) (input : string) : option Card :=
  let query := normalise U input in
  if acronymShortcut DATA input then
    match JS.get (acronymsToCardIds DATA) query with
    | Some (JS.Own cardId) => getCard DATA cardId
    | Some (JS.Inherited name) => getCard DATA (JS.memberKey name)
    | None => getCard DATA "undefined"
    end
  else
    match closestTitle DATA query with
    | Some name => getCard DATA (readId U name)
    | None => None
    end.

(** [denormaliseCardTitle], lines 198-200. *)
Definition denormaliseCardTitle (DATA : WrData) (cardTitle : string)
  : option (JS.Property string) :=
  JS.get (normalisedToUnnormalisedCardTitles DATA) cardTitle.

End Api.

(** ** The message-response module ([parseInlineCommands], [parseCard]) *)

Inductive Embed :=
| CardEmbed (card : Card)         (* [createCardEmbed(card)] *)
| CardImageEmbed (card : Card).   (* [createCardImageEmbed(card)] *)

(** The value of a call to an [async] function: a promise, settled at once
    since the body awaits nothing. *)
Inductive Promise (A : Type) :=
| Fulfilled (a : A)
| Rejected.
Arguments Fulfilled {A} a.
Arguments Rejected {A}.

(** A promise is an object, and every object is truthy. *)
Definition truthyPromise {A : Type} (p : Promise A) : bool := true.

Module Scan.

Fixpoint dropChars (n : nat) (s : string) : string :=
  match n, s with
  | S k, String _ s' => dropChars k s'
  | _, _ => s
  end.

Definition isBackslash (prev : option ascii) : bool :=
  match prev with
  | Some c => Ascii.eqb c "\"
  | None => false
  end.

(** Offset of the first triple backtick in [s]: where the lazy
    [[\s\S]*?] followed by the closing marker stops. *)
Fixpoint findFence (s : string) : option nat :=
  match s with
  | EmptyString => None
  | String _ s' =>
      if JS.startsWith s "```" then Some 0%nat
      else option_map S (findFence s')
  end.

(** Line 153: every match of [/(?<!\\)```[\s\S]*?```/g] in [content] is
    replaced by the empty string, reading left to right.  [prev] is the
    character before the current position (for the look-behind) and [skip]
    counts the characters of the current match still to drop. *)
Fixpoint replaceFences (prev : option ascii) (skip : nat) (s : string) : string :=
  match s with
  | EmptyString => EmptyString
  | String c s' =>
      match skip with
      | S k => replaceFences (Some c) k s'
      | O =>
          if negb (isBackslash prev) && JS.startsWith s "```" then
            match findFence (dropChars 3 s) with
            | Some n => replaceFences (Some c) (n + 5) s'
            | None => String c (replaceFences (Some c) 0 s')
            end
          else String c (replaceFences (Some c) 0 s')
      end
  end.

(** The regular expression [.] rejects the line terminators. *)
Definition isLineTerminator (c : ascii) : bool :=
  let n := nat_of_ascii c in (n =? 10)%nat || (n =? 13)%nat.

(** [.*?] followed by [close]: the shortest run of characters other than
    line terminators that is followed by [close]. *)
Fixpoint lazyUntil (close : string) (s : string) : option string :=
  match s with
  | EmptyString => None
  | String c s' =>
      if JS.startsWith s close then Some EmptyString
      else if isLineTerminator c then None
      else option_map (String c) (lazyUntil close s')
  end.

Definition bracketed (opening close : string) (s : string) : option string :=
  if JS.startsWith s opening
  then option_map (fun inner => opening ++ inner ++ close)
         (lazyUntil close (dropChars 2 s))
  else None.

(** [/\[\[.*?\]\]|\{\{.*?\}\}|<<.*?>>/] anchored at the start of [s]: the
    matched text, brackets included. *)
Definition matchAt (s : string) : option string :=
  match bracketed "[[" "]]" s with
  | Some m => Some m
  | None =>
      match bracketed "{{" "}}" s with
      | Some m => Some m
      | None => bracketed "<<" ">>" s
      end
  end.

(** [filteredContent.match(regex)] with the [g] flag, lines 154-155: all
    the matches, left to right, not overlapping; [null] is the empty
    list.  [skip] counts the characters of the last match still to pass. *)
Fixpoint matchAll (skip : nat) (s : string) : list string :=
  match s with
  | EmptyString => []
  | String _ s' =>
      match skip with
      | S k => matchAll k s'
      | O =>
          match matchAt s with
          | Some m => m :: matchAll (String.length m - 1) s'
          | None => matchAll 0 s'
          end
      end
  end.

End Scan.

Section MessageCreate.

Variable U : Utility.
Variable DATA : WrData.

(** What one call of [parseCard] does: the promise it returns, the list
    [previousCards] after the call and the embeds it sends. *)
Record ParseCardResult := {
  pc_promise : Promise bool;
  pc_cards : list string;
  pc_sent : list Embed
}.

(** [parseCard], lines 200-221.  When no card is found, building the
    error message reads [rawInput], which is not declared in this scope:
    the [ReferenceError] rejects the promise before [logError] is
    reached. *)
Definition parseCard (match_ query : string) (previousCards : list string)
  : ParseCardResult :=
  match getClosestCard U DATA (applyAlias U query) with
  | None =>
      {| pc_promise := Rejected; pc_cards := previousCards; pc_sent := [] |}
  | Some card =>
      if existsb (String.eqb (id card)) previousCards then
        {| pc_promise := Fulfilled false; pc_cards := previousCards; pc_sent := [] |}
      else
        {| pc_promise := Fulfilled true;
           pc_cards := (previousCards ++ [id card])%list;
           pc_sent :=
             [if JS.startsWith match_ "[" then CardEmbed card
              else CardImageEmbed card] |}
  end.

(** Line 177. *)
Definition rawInputOf (match_ : string) : string :=
  JS.trim (JS.substring 2 (String.length match_ - 2) match_).

(** The loop of lines 172-188: the embeds sent to the channel, in
    order. *)
Fixpoint parseMatches (matches : list string) (countdown : Z)
         (cards_ : list string) : list Embed :=
  match matches with
  | [] => []
  | match_ :: rest =>
      if (countdown <? 1)%Z then []
      else
        let rawInput := rawInputOf match_ in
        if String.eqb rawInput EmptyString || (255 <? String.length rawInput)%nat
        then []
        else
          let r := parseCard match_ rawInput cards_ in
          let success := pc_promise r in
          (pc_sent r ++
           parseMatches rest
             (if truthyPromise success then countdown - 1 else countdown)%Z
             (pc_cards r))%list
  end.

(** [parseInlineCommands], lines 150-189.  [RESULT_LIMIT] is the number
    that [process.env.RESULT_LIMIT] converts to. *)
Definition parseInlineCommands (RESULT_LIMIT : Z) (content : string) : list Embed :=
  let filteredContent := Scan.replaceFences None 0 content in
  let matches := Scan.matchAll 0 filteredContent in
  parseMatches matches RESULT_LIMIT [].

End MessageCreate.

(** ** [cardToColor]: the two versions of [WitchesRevel/discord.js] *)

Section Colours.

(** [process.env] and the unary [+] that converts a variable to a
    number. *)
Variable env : string -> option string.
Variable Num : Type.
Variable toNumber : option string -> Num.

(** [domainToColor], identical in both versions. *)
Definition domainToColor (domainId : string) : Num :=
  let color :=
    if String.eqb domainId "flames" then env "COLOR_FLAMES"
    else if String.eqb domainId "currents" then env "COLOR_CURRENTS"
    else if String.eqb domainId "moonlight" then env "COLOR_MOONLIGHT"
    else env "COLOR_ERROR" in
  toNumber color.

(** [cardToColor] of [src/WitchesRevel/discord.js], lines 48-52. *)
Definition cardToColor (card : Card) : Num :=
  JS.ifTruthy (frontFace_stitchIcon card)
    domainToColor
    (toNumber (env "COLOR_INFO")).

(** [cardToColor] of the other copy of the module ([unnamed/part_002]),
    lines 48-55. *)
Definition cardToColor_part_002 (card : Card) : Num :=
  JS.ifTruthy (frontFace_stitchIcon card)
    domainToColor
    (if String.eqb (frontFace_typeLine card) "A Resource."
        || String.eqb (frontFace_typeLine card) "A Marker."
     then toNumber (env "COLOR_INFO")
     else toNumber (env "COLOR_NO_DOMAIN")).

End Colours.

Arguments domainToColor env {Num} toNumber domainId.
Arguments cardToColor env {Num} toNumber card.
Arguments cardToColor_part_002 env {Num} toNumber card.

(** ** A small catalogue for the worked cases *)

Module Examples.

Fixpoint underscored (s : string) : string :=
  match s with
  | EmptyString => EmptyString
  | String c s' =>
      String (if Ascii.eqb c " " then "_"%char else c) (underscored s')
  end.

(** An identifier reader for the worked cases ([readId] is not in the
    source tree): the normalised title with its spaces underscored, which
    is how the cards below are identified. *)
Definition slug (s : string) : string := underscored (SpecModel.normalise s).

Definition helpersWith (aliases : gmap string string) : Utility :=
  {| normalise := SpecModel.normalise;
     readId := slug;
     bestMatch := SpecModel.bestMatch;
     applyAlias := SpecModel.applyAlias aliases |}.

(** The helpers with an empty alias table. *)
Definition helpers : Utility := helpersWith ∅.

Definition mkCard (cardId title : string) : Card :=
  {| id := cardId; fullNames_frontFace := title;
     frontFace_stitchIcon := None; frontFace_typeLine := "A Spell." |}.

Definition emberCall := mkCard "ember_call" "Ember Call".
Definition emberStorm := mkCard "ember_storm" "Ember Storm".
Definition callingTheStorm := mkCard "calling_the_storm" "Calling the Storm".
Definition flameWard := mkCard "flame_ward" "Flame Ward".
Definition frostWall := mkCard "frost_wall" "Frost Wall".
Definition few := mkCard "few" "Few".
Definition amber := mkCard "amber" "Amber".
Definition ab := mkCard "ab" "Ab".
Definition flames := mkCard "flames" "Flames".
Definition fro := mkCard "fro" "Fro".
Definition emberCallCapitals := mkCard "ember_call_2" "EMBER CALL".
Definition marker : Card :=
  {| id := "marker"; fullNames_frontFace := "Marker";
     frontFace_stitchIcon := None; frontFace_typeLine := "A Marker." |}.

(** [DATA = {}] before the first load. *)
Definition noData : WrData :=
  {| cards := None; normalisedCardTitles := [];
     normalisedToUnnormalisedCardTitles := ∅; acronymsToCardIds := ∅;
     mappedCardTitles := ∅; expansions := ∅ |}.

Definition snapshot (cs : list Card) : FetchOutcome :=
  Responded true (Some {| data_cards := Some cs; data_expansions := Some [] |}).

(** The index after a successful load of the given cards. *)
Definition indexOf (cs : list Card) : WrData :=
  fst (loadApiData helpers noData (snapshot cs)).

Definition emberIndex : WrData := indexOf [emberCall; emberStorm; callingTheStorm].

End Examples.

(** ** Notions used to state the properties *)

(** The candidate tiers of the resolver, each taken from the whole list of
    normalised titles. *)
Definition prefixCandidates (titles : list string) (query : string) : list string :=
  List.filter (fun title => JS.startsWith title query) titles.

Definition substringCandidates (titles : list string) (query : string) : list string :=
  List.filter (fun title => JS.includes title query) titles.

(** The first non-empty tier: prefix, then substring, then every title. *)
Definition chosenTier (titles : list string) (query : string) : list string :=
  match prefixCandidates titles query with
  | (_ :: _) as leading => leading
  | [] =>
      match substringCandidates titles query with
      | (_ :: _) as containing => containing
      | [] => titles
      end
  end.

(** [name] is the first candidate of minimum distance: no candidate is
    closer, and every candidate before it is strictly farther. *)
Definition firstClosest (distance : string -> nat) (candidates : list string)
           (name : string) : Prop :=
  exists i : nat,
    candidates !! i = Some name
    /\ (forall (j : nat) (t : string), candidates !! j = Some t -> distance name <= distance t)
    /\ (forall (j : nat) (t : string), j < i -> candidates !! j = Some t -> distance name < distance t).

(** The resolver answers by tiers at [input]: when some tier is non-empty,
    its result is the entry read for the first closest title of the chosen
    tier. *)
Definition resolvesByTiers (U : Utility) (DATA : WrData) (input : string) : Prop :=
  let query := normalise U input in
  let tier := chosenTier (normalisedCardTitles DATA) query in
  tier <> [] ->
  exists name : string,
    firstClosest (SpecModel.levenshtein query) tier name
    /\ getClosestCard U DATA input = getCard DATA (readId U name).

(** Offset of the first triple backtick of [s] that no backslash precedes;
    [prev] is the character before [s]. *)
Fixpoint findUnescapedFence (prev : option ascii) (s : string) : option nat :=
  match s with
  | EmptyString => None
  | String c s' =>
      if negb (Scan.isBackslash prev) && JS.startsWith s "```" then Some 0%nat
      else option_map S (findUnescapedFence (Some c) s')
  end.

(** The last character of [s], or [prev] when [s] is empty. *)
Fixpoint lastChar (prev : option ascii) (s : string) : option ascii :=
  match s with
  | EmptyString => prev
  | String c s' => lastChar (Some c) s'
  end.

Definition endsWithBackslash (s : string) : bool :=
  Scan.isBackslash (lastChar None s).

(** The embedded card of an embed. *)
Definition embedCard (e : Embed) : Card :=
  match e with
  | CardEmbed card => card
  | CardImageEmbed card => card
  end.

Module Inputs.

Fixpoint repeatChar (c : ascii) (n : nat) : string :=
  match n with
  | O => EmptyString
  | S k => String c (repeatChar c k)
  end.

Definition digitValue (c : ascii) : option Z :=
  let n := nat_of_ascii c in
  if (48 <=? n)%nat && (n <=? 57)%nat then Some (Z.of_nat (n - 48)) else None.

Fixpoint decimalFrom (acc : Z) (s : string) : option Z :=
  match s with
  | EmptyString => Some acc
  | String c s' =>
      match digitValue c with
      | Some d => decimalFrom (10 * acc + d)%Z s'
      | None => None
      end
  end.

(** Unary [+] on an environment variable written in decimal digits;
    [None] is [NaN]. *)
Definition decimal (v : option string) : option Z :=
  match v with
  | Some (String _ _ as s) => decimalFrom 0 s
  | Some EmptyString => Some 0%Z
  | None => None
  end.

(** An environment with two distinct colours. *)
Definition env (name : string) : option string :=
  if String.eqb name "COLOR_INFO" then Some "3447003"
  else if String.eqb name "COLOR_NO_DOMAIN" then Some "9807270"
  else if String.eqb name "COLOR_ERROR" then Some "15158332"
  else None.

(** An expansion of the snapshot. *)
Definition coreSet : Expansion :=
  {| expansion_id := "core"; collationName := "Core Set" |}.

End Inputs.

(** A response whose body parses and has both arrays. *)
Definition wellFormed (cs : list Card) (es : list Expansion) : FetchOutcome :=
  Responded true (Some {| data_cards := Some cs; data_expansions := Some es |}).

(** The global [DATA] after [loadApiData] has run on a well-formed
    snapshot. *)
Definition loaded (U : Utility) (DATA : WrData) (cs : list Card) (es : list Expansion)
  : WrData :=
  fst (loadApiData U DATA (wellFormed cs es)).

(** The normalised title and the acronym that the index build derives for
    a card. *)
Definition normalisedTitle (U : Utility) (card : Card) : string :=
  normalise U (fullNames_frontFace card).

Definition cardAcronym (U : Utility) (card : Card) : string :=
  acronymOf (normalisedTitle U card).

(** An array index as a property key: a decimal numeral with no leading
    zero and a value below [2^32 - 1]. *)
Definition arrayIndex (key : string) : bool :=
  match key with
  | EmptyString => false
  | String c rest =>
      (negb (Ascii.eqb c "0") || String.eqb rest EmptyString)
      && match Inputs.decimalFrom 0 key with
         | Some n => (n <? 4294967295)%Z
         | None => false
         end
  end.

(** The keys that are not plain property names of the card store: the
    array indices, whose assignment replaces or adds an element of the
    array that the build iterates; [length], whose assignment throws a
    [RangeError]; [forEach], which the build calls on the array at line 67;
    and [__proto__]. *)
Definition reservedKey (key : string) : bool :=
  arrayIndex key
  || String.eqb key "length"
  || String.eqb key "forEach"
  || String.eqb key "__proto__".

(** A catalogue whose titles are all read to plain keys: the build adds
    its cards to the array as properties and iterates the cards of the
    snapshot, in order. *)
Definition plainCatalogue (U : Utility) (cs : list Card) : Prop :=
  Forall (fun c => reservedKey (readId U (fullNames_frontFace c)) = false) cs.

(** A text cut into fenced blocks: each pair is a run of plain text and the
    body of the block that follows it; [tail] is the text after the last
    block. *)
Fixpoint render (blocks : list (string * string)) (tail : string) : string :=
  match blocks with
  | [] => tail
  | (plain, body) :: more => plain ++ "```" ++ body ++ "```" ++ render more tail
  end.

(** The same text with its blocks taken out. *)
Fixpoint withoutBlocks (blocks : list (string * string)) (tail : string) : string :=
  match blocks with
  | [] => tail
  | (plain, _) :: more => plain ++ withoutBlocks more tail
  end.

(** The cut is the one the replacement makes: no marker starts in the plain
    run, the opening marker is not escaped, and the closing marker is the
    first triple backtick after the opening one. *)
Definition wellFenced (block : string * string) : Prop :=
  Scan.findFence (fst block ++ "``") = None
  /\ endsWithBackslash (fst block) = false
  /\ Scan.findFence (snd block ++ "``") = None.

(** The cut that the replacement makes in any text: no marker without a
    backslash before it starts in the plain run (escaped markers may), the
    opening marker is not escaped, and the closing marker is the first
    triple backtick after the opening one, escaped or not. *)
Definition fencedBlock (block : string * string) : Prop :=
  findUnescapedFence None (fst block ++ "``") = None
  /\ endsWithBackslash (fst block) = false
  /\ Scan.findFence (snd block ++ "``") = None.

Fixpoint takeChars (n : nat) (s : string) : string :=
  match n, s with
  | S k, String c s' => String c (takeChars k s')
  | _, _ => EmptyString
  end.

(** The cut of a text into its fenced blocks, left to right: a block opens
    at the first marker that no backslash precedes, provided a triple
    backtick follows the marker, and closes at the first such one; what is
    left when no block opens is the rest.  [fuel] bounds the number of
    blocks; the length of the text is enough. *)
Fixpoint cutBlocks (fuel : nat) (s : string) : list (string * string) * string :=
  match fuel with
  | O => ([], s)
  | S fuel' =>
      match findUnescapedFence None s with
      | None => ([], s)
      | Some i =>
          let opened := Scan.dropChars (i + 3) s in
          match Scan.findFence opened with
          | None => ([], s)
          | Some n =>
              let rest := cutBlocks fuel' (Scan.dropChars (n + 3) opened) in
              ((takeChars i s, takeChars n opened) :: fst rest, snd rest)
          end
      end
  end.

(** The fenced blocks of a text, each with the plain run before it, and the
    text after the last block. *)
Definition blocksOf (text : string) : list (string * string) :=
  fst (cutBlocks (String.length text) text).

Definition restOf (text : string) : string :=
  snd (cutBlocks (String.length text) text).

(** No block opens in [s]: it has no marker without a backslash before it,
    or no triple backtick after the first such marker. *)
Definition noBlock (s : string) : Prop :=
  match findUnescapedFence None s with
  | None => True
  | Some i => Scan.findFence (Scan.dropChars (i + 3) s) = None
  end.

(** ** The remaining readers of [src/WitchesRevel/api.js] *)

(** [getNormalisedCardTitles], lines 190-192. *)
Definition getNormalisedCardTitles (DATA : WrData) : list string :=
  normalisedCardTitles DATA.

(** [searchNormalisedCardTitles], lines 206-214. *)
Definition searchNormalisedCardTitles (DATA : WrData) (query : string) : list string :=
  match query with
  | EmptyString => []
  | String c _ =>
      match mappedCardTitles DATA !! String c EmptyString with
      | Some firstResults =>
          List.filter (fun title => JS.startsWith title query) firstResults
      | None => []
      end
  end.

(** [getExpansion], lines 225-227. *)
Definition getExpansion (DATA : WrData) (expansionId : string)
  : option (JS.Property Expansion) :=
  JS.get (expansions DATA) expansionId.

(** ** The autocompletion of the alias-viewing command ([unnamed/part_001]) *)


(** ** The embed module ([unnamed/part_003], lines 1-92) and the rest of
       [WitchesRevel/discord.js] *)

(** A clause of [card.frontFace.text]. *)
Record Clause := {
  kind : string;
  condition : string;
  clause_text : string
}.

(** A print of [card.prints.printsByID]. *)
Record Print := {
  print_id : string;
  expansionID : string
}.

(** The further fields of a card that the embed module reads:
    [card.frontFace.text], [card.frontFace.value] (its own keys, in the
    order of [Object.keys], each with its value as it prints; [None] when
    the field is undefined) and the values of [card.prints.printsByID] in
    the order of [Object.values]. *)
Record CardView := {
  view_card : Card;
  frontFace_text : list Clause;
  frontFace_value : option (list (string * string));
  prints : list Print
}.

(** [xs.join(sep)]; [undefined] elements join as the empty string. *)
Fixpoint joinWith (sep : string) (xs : list (option string)) : string :=
  match xs with
  | [] => EmptyString
  | [x] => default EmptyString x
  | x :: rest => default EmptyString x ++ sep ++ joinWith sep rest
  end.

Section EmbedModule.

Variable env : string -> option string.

(** [toTitleCase] of [Utility/text.js], not in the source tree. *)
Variable toTitleCase : string -> string.

(** [cardToStitchIconEmote], discord.js lines 58-67: [None] is
    [undefined]. *)
Definition cardToStitchIconEmote (card : Card) : option string :=
  match frontFace_stitchIcon card with
  | Some icon =>
      if String.eqb icon "flames" then env "EMOJI_FLAMES"
      else if String.eqb icon "currents" then env "EMOJI_CURRENTS"
      else if String.eqb icon "moonlight" then env "EMOJI_MOONLIGHT"
      else None
  | None => None
  end.

(** [formatCardText], [unnamed/part_002] lines 76-85. *)
Definition formatCardText (card : CardView) : string :=
  joinWith (String "010"%char EmptyString)
    (map (fun clause =>
            if String.eqb (kind clause) "unmarked" then Some (clause_text clause)
            else Some ("**" ++ condition clause ++ "** " ++ clause_text clause))
         (frontFace_text card)).

(** The callback of line 68-70: its body is a block that evaluates the
    concatenation and returns nothing, so the call yields [undefined]. *)
Definition statOf (value : list (string * string)) (key : string) : option string :=
  let _ := (toTitleCase key ++ ": "
            ++ default "undefined" (snd <$> List.find (fun kv => String.eqb (fst kv) key) value))
  in None.

(** [cardToEmbedBody], lines 60-77. *)
Definition cardToEmbedBody (card : CardView) : string :=
  let type := frontFace_typeLine (view_card card) in
  let iconEmote := cardToStitchIconEmote (view_card card) in
  let stitchIcon := JS.ifTruthy iconEmote (fun e => " (" ++ e ++ ")") EmptyString in
  let stats :=
    match frontFace_value card with
    | Some value => joinWith " • " (map (statOf value) (map fst value))
    | None => EmptyString
    end in
  type ++ stitchIcon
  ++ (if String.eqb stats EmptyString then EmptyString
      else String "010"%char stats)
  ++ String "010"%char ">>> " ++ formatCardText card.

(** [cardToFooter], lines 83-92.  [None] is the [TypeError] of reading a
    property of [undefined]: no print, or nothing read from
    [DATA.expansions] for the first print.  A member inherited from
    [Object.prototype] has no [collationName], and the template prints
    [undefined] for it. *)
Definition cardToFooter (DATA : WrData) (card : CardView) : option string :=
  let stitchIcon :=
    JS.ifTruthy (frontFace_stitchIcon (view_card card))
      (fun icon => icon ++ " • ") EmptyString in
  match prints card with
  | [] => None
  | expansionData :: _ =>
      match getExpansion DATA (expansionID expansionData) with
      | None => None
      | Some found =>
          let expansion :=
            match found with
            | JS.Own e => collationName e
            | JS.Inherited _ => "undefined"
            end in
          Some (stitchIcon ++ expansion ++ " #" ++ print_id expansionData)
      end
  end.

End EmbedModule.

(** ** The button registry ([unnamed/part_004]) *)

Section Buttons.

(** Interactions and callbacks are opaque; [run] is what calling a callback
    does to the registry it may itself read and write, and how the call
    ends. *)
Variable Interaction : Type.
Variable Callback : Type.
Variable run :
  Callback -> Interaction -> Interaction ->
  gmap string (Interaction * Callback) ->
  gmap string (Interaction * Callback) * Completion.

(** What [callButton] did: it called a callback on the registering and the
    pressing interaction, and the callback returned or threw; or it called
    no callback and ended in an error: the branch of the failed interaction
    builds an [EmbedBuilder], which the module does not import, and for an
    identifier that is only a name inherited from [Object.prototype] the
    member read has no [callback] to call. *)
Inductive ButtonOutcome :=
| Invoked (callback : Callback) (parentInteraction interaction : Interaction)
| CallbackThrew (callback : Callback) (parentInteraction interaction : Interaction)
| InteractionFailed.

(** [registerButton], lines 28-33. *)
Definition registerButton (BUTTONS : gmap string (Interaction * Callback))
           (interaction : Interaction) (buttonId : string) (callback : Callback)
  : gmap string (Interaction * Callback) :=
  <[buttonId := (interaction, callback)]> BUTTONS.

(** [callButton], lines 41-57: the registry after the call and what was
    done.  The [delete] of line 47 follows the callback outside any [try]:
    a callback that throws leaves the registry as the callback left it. *)
Definition callButton (BUTTONS : gmap string (Interaction * Callback))
           (interaction : Interaction) (buttonId : string)
  : gmap string (Interaction * Callback) * ButtonOutcome :=
  match BUTTONS !! buttonId with
  | Some (parentInteraction, callback) =>
      match run callback parentInteraction interaction BUTTONS with
      | (after, Returned) =>
          (delete buttonId after, Invoked callback parentInteraction interaction)
      | (after, Threw) =>
          (after, CallbackThrew callback parentInteraction interaction)
      end
  | None => (BUTTONS, InteractionFailed)
  end.

End Buttons.

Arguments InteractionFailed {Interaction Callback}.
Arguments Invoked {Interaction Callback} callback parentInteraction interaction.
Arguments CallbackThrew {Interaction Callback} callback parentInteraction interaction.

(** ** The entry point of the message-response module *)

(** The fields of a Discord message that [execute] reads. *)
Record Message := {
  author_bot : bool;
  content : string;
  guildId : option string
}.

Section MessageExecute.

Variable U : Utility.
Variable DATA : WrData.

(** [readBool] of [Utility/env.js] and [isServerWhitelisted] of
    [Permissions/serverWhitelist.js], not in the source tree. *)
Variable readBool : string -> bool.
Variable isServerWhitelisted : string -> bool.

(** [execute], [unnamed/part_003] lines 117-141: the embeds sent for a
    message. *)
Definition execute (RESULT_LIMIT : Z) (message : Message) : list Embed :=
  if author_bot message || String.eqb (content message) EmptyString then []
  else if JS.ifTruthy (guildId message)
            (fun g => readBool "WHITELIST_SERVERS" && negb (isServerWhitelisted g))
            false
  then []
  else if negb (JS.truthy (guildId message)) && negb (readBool "ALLOW_DIRECT_MESSAGES")
  then []
  else parseInlineCommands U DATA RESULT_LIMIT (content message).

End MessageExecute.

(** ** Further notions *)

(** The bucket of [mappedCardTitles] that a key names: the titles filed
    under it, in order. *)
Definition bucketOf (key : string) (titles : list string) : list string :=
  List.filter (fun title => String.eqb (firstCharKey title) key) titles.

(** A span that the loop hands to [parseCard]: its trimmed inner text is
    neither empty nor longer than 255. *)
Definition validSpan (match_ : string) : bool :=
  negb (String.eqb (rawInputOf match_) EmptyString
        || (255 <? String.length (rawInputOf match_))%nat).

(** The matches before the first one that is not a valid span. *)
Fixpoint validPrefix (matches : list string) : list string :=
  match matches with
  | [] => []
  | match_ :: rest => if validSpan match_ then match_ :: validPrefix rest else []
  end.

(** Answering every span of a list, with no limit and no rejection: one
    embed for the first span of each card. *)
Fixpoint answerSpans (U : Utility) (DATA : WrData) (matches : list string)
         (cards_ : list string) : list Embed :=
  match matches with
  | [] => []
  | match_ :: rest =>
      (pc_sent (parseCard U DATA match_ (rawInputOf match_) cards_)
       ++ answerSpans U DATA rest
            (pc_cards (parseCard U DATA match_ (rawInputOf match_) cards_)))%list
  end.

(** The three bracket pairs of the scanner. *)
Definition bracketPairs : list (string * string) :=
  [("[[", "]]"); ("{{", "}}"); ("<<", ">>")].

Fixpoint noLineTerminator (s : string) : bool :=
  match s with
  | EmptyString => true
  | String c s' => negb (Scan.isLineTerminator c) && noLineTerminator s'
  end.

(** [n] copies of [s]. *)
Fixpoint repeatString (s : string) (n : nat) : string :=
  match n with
  | O => EmptyString
  | S k => s ++ repeatString s k
  end.

(** The statistics line of an embed body, by the number of statistics of
    the card: nothing for at most one, else a line of separators. *)
Definition statsLine (value : option (list (string * string))) : string :=
  match value with
  | Some (_ :: (_ :: _) as more) =>
      String "010"%char (repeatString " • " (List.length more))
  | _ => EmptyString
  end.

(** Inputs of the worked cases of the embed module and of the entry
    point. *)
Module Views.

(** A card with one print in the expansion [Inputs.coreSet]. *)
Definition emberCallView : CardView :=
  {| view_card := Examples.emberCall;
     frontFace_text := [];
     frontFace_value := None;
     prints := [{| print_id := "12"; expansionID := "core" |}] |}.

(** A card whose first print names an expansion that the snapshot lacks
    and that the expansions inherit. *)
Definition reprintView : CardView :=
  {| view_card := Examples.emberCall;
     frontFace_text := [];
     frontFace_value := None;
     prints := [{| print_id := "3"; expansionID := "constructor" |}] |}.

(** A callback that returns and one that throws, both leaving the registry
    as it is. *)
Definition polite (callback registering pressing : nat)
           (registry : gmap string (nat * nat))
  : gmap string (nat * nat) * Completion :=
  (registry, Returned).

Definition failing (callback registering pressing : nat)
           (registry : gmap string (nat * nat))
  : gmap string (nat * nat) * Completion :=
  (registry, Threw).

(** A direct message from a user. *)
Definition directMessage : Message :=
  {| author_bot := false; content := "[[Ember Call]]"; guildId := None |}.

End Views.

(** * Properties *)

(** ** String and list facts *)

Lemma startsWith_includes (s q : string) :
  JS.startsWith s q = true -> JS.includes s q = true.
Proof. intros H. destruct s; cbn [JS.includes]; rewrite H; reflexivity. Qed.

Lemma filter_filter_weaker {A : Type} (p q : A -> bool) (l : list A) :
  (forall x, p x = true -> q x = true) ->
  List.filter p (List.filter q l) = List.filter p l.
Proof.
  intros Hpq. induction l as [|x l IH]; simpl; [reflexivity|].
  destruct (q x) eqn:Hq; simpl.
  - rewrite IH. reflexivity.
  - destruct (p x) eqn:Hp; [|exact IH].
    apply Hpq in Hp. congruence.
Qed.

Lemma positive_length {A : Type} (l : list A) :
  (0 <? List.length l)%nat = match l with [] => false | _ :: _ => true end.
Proof. destruct l; reflexivity. Qed.

(** ** The resolver *)

Section ResolverFacts.

Variable U : Utility.

(** The title that [getClosestCard] reads an identifier from is the best
    match of the chosen tier. *)
Lemma closestTitle_chosenTier (DATA : WrData) (query : string) :
  closestTitle U DATA query
  = bestMatch U query (chosenTier (normalisedCardTitles DATA) query).
Proof.
  unfold closestTitle, chosenTier, prefixCandidates, substringCandidates.
  rewrite filter_filter_weaker by (intros x; apply startsWith_includes).
  rewrite !positive_length.
  set (leading := List.filter (fun title => JS.startsWith title query) _).
  set (containing := List.filter (fun title => JS.includes title query) _).
  destruct leading; [|reflexivity].
  destruct containing; reflexivity.
Qed.

Lemma getClosestCard_regular (DATA : WrData) (input : string) :
  acronymShortcut U DATA input = false ->
  getClosestCard U DATA input
  = match bestMatch U (normalise U input)
            (chosenTier (normalisedCardTitles DATA) (normalise U input)) with
    | Some name => getCard DATA (readId U name)
    | None => None
    end.
Proof.
  intros H. unfold getClosestCard. rewrite H, closestTitle_chosenTier.
  reflexivity.
Qed.

End ResolverFacts.

(** ** The modelled [bestMatch] *)

Lemma firstClosest_single (d : string -> nat) (t : string) :
  firstClosest d [t] t.
Proof.
  exists 0%nat. split; [reflexivity|]. split.
  - intros j x Hj. apply list_lookup_singleton_Some in Hj as [_ ->]. lia.
  - intros j x Hlt. lia.
Qed.

Lemma firstClosest_snoc (q : string) (seen : list string) (best t : string) :
  firstClosest (SpecModel.levenshtein q) seen best ->
  firstClosest (SpecModel.levenshtein q) (seen ++ [t]) (SpecModel.closer q best t).
Proof.
  intros (i & Hi & Hmin & Hfirst). unfold SpecModel.closer.
  destruct (Nat.ltb_spec (SpecModel.levenshtein q t) (SpecModel.levenshtein q best))
    as [Hlt|Hge].
  - exists (List.length seen). split.
    { apply lookup_snoc_Some. right. split; reflexivity. }
    split.
    + intros j x Hj. apply lookup_snoc_Some in Hj as [[_ Hj]|[_ <-]]; [|lia].
      specialize (Hmin j x Hj). lia.
    + intros j x Hj' Hj. apply lookup_snoc_Some in Hj as [[_ Hj]|[Hj _]]; [|lia].
      specialize (Hmin j x Hj). lia.
  - exists i. split.
    { apply lookup_snoc_Some. left. split; [|exact Hi].
      eapply lookup_lt_Some; exact Hi. }
    split.
    + intros j x Hj. apply lookup_snoc_Some in Hj as [[_ Hj]|[_ <-]]; [|lia].
      exact (Hmin j x Hj).
    + intros j x Hj' Hj. apply lookup_snoc_Some in Hj as [[_ Hj]|[Hj _]].
      * exact (Hfirst j x Hj' Hj).
      * apply lookup_lt_Some in Hi. lia.
Qed.

Lemma fold_closer_firstClosest (q : string) (rest seen : list string) (best : string) :
  firstClosest (SpecModel.levenshtein q) seen best ->
  firstClosest (SpecModel.levenshtein q) (seen ++ rest)
    (fold_left (SpecModel.closer q) rest best).
Proof.
  revert seen best. induction rest as [|t rest IH]; intros seen best H; simpl.
  - rewrite app_nil_r. exact H.
  - replace (seen ++ t :: rest)%list with ((seen ++ [t]) ++ rest)%list
      by (rewrite <- app_assoc; reflexivity).
    apply IH, firstClosest_snoc, H.
Qed.

(** On a non-empty list the modelled [bestMatch] yields the first closest
    title. *)
Lemma bestMatch_firstClosest (q : string) (titles : list string) :
  titles <> [] ->
  exists name : string,
    SpecModel.bestMatch q titles = Some name
    /\ firstClosest (SpecModel.levenshtein q) titles name.
Proof.
  destruct titles as [|t ts]; [congruence|]. intros _.
  eexists. split; [reflexivity|].
  apply (fold_closer_firstClosest q ts [t] t), firstClosest_single.
Qed.

(** C1 (as amended): when the acronym shortcut does not fire,
    [getClosestCard] takes the titles that start with the normalised query,
    else those that contain it, else all titles, and returns the entry read
    for the title of that tier with minimum edit distance to the query, the
    first such title in iteration order.  [bestMatch] is the modelled one. *)
Theorem getClosestCard_tiers (U : Utility) (DATA : WrData) (input : string) :
  (forall q ts, bestMatch U q ts = SpecModel.bestMatch q ts) ->
  acronymShortcut U DATA input = false ->
  resolvesByTiers U DATA input.
Proof.
  intros Hbest Hguard. unfold resolvesByTiers. intros Hne.
  destruct (bestMatch_firstClosest (normalise U input) _ Hne) as (name & Hname & Hfirst).
  exists name. split; [exact Hfirst|].
  rewrite getClosestCard_regular by exact Hguard.
  rewrite Hbest, Hname. reflexivity.
Qed.

Lemma getClosestCard_tiers_witness :
  resolvesByTiers Examples.helpers Examples.emberIndex "storm".
Proof.
  apply getClosestCard_tiers.
  - intros q ts. reflexivity.
  - vm_compute. reflexivity.
Defined.

(** C1, the claim as stated fails: with "Flame Ward" and "Few" in the
    catalogue, the query [FW] is answered by the acronym index with
    "Flame Ward", although no title starts with or contains [fw] and "few"
    is the closest title of the whole catalogue. *)
Lemma getClosestCard_tiers_counterexample :
  ~ resolvesByTiers Examples.helpers
      (Examples.indexOf [Examples.flameWard; Examples.few]) "FW".
Proof.
  unfold resolvesByTiers. intros H.
  destruct H as (name & (i & Hi & Hmin & _) & Heq).
  { vm_compute. discriminate. }
  assert (Htier :
    chosenTier
      (normalisedCardTitles (Examples.indexOf [Examples.flameWard; Examples.few]))
      (normalise Examples.helpers "FW") = ["flame ward"; "few"])
    by (vm_compute; reflexivity).
  rewrite Htier in Hi, Hmin.
  destruct i as [|[|i]]; simpl in Hi.
  - injection Hi as <-.
    specialize (Hmin 1%nat "few" eq_refl). vm_compute in Hmin. lia.
  - injection Hi as <-. vm_compute in Heq. discriminate.
  - discriminate.
Qed.

(** The guard also fires for a name that the acronym index inherits: the
    upper-case query [CONSTRUCTOR] takes the shortcut, and the member read
    is not the key of any card. *)
Example inherited_name_takes_shortcut :
  acronymShortcut Examples.helpers
    (Examples.indexOf [Examples.amber; Examples.ab]) "CONSTRUCTOR" = true
  /\ getClosestCard Examples.helpers
       (Examples.indexOf [Examples.amber; Examples.ab]) "CONSTRUCTOR" = None
  /\ getClosestCard Examples.helpers
       (Examples.indexOf [Examples.amber; Examples.ab]) "constructor"
     = Some Examples.amber.
Proof. repeat split; vm_compute; reflexivity. Qed.

(** The acronym branch of [getClosestCard]. *)
Lemma acronym_shortcut_guard (U : Utility) (DATA : WrData) (input cardId : string) :
  (1 < String.length (normalise U input))%nat ->
  JS.toUpperCase input = input ->
  acronymsToCardIds DATA !! normalise U input = Some cardId ->
  cardId <> EmptyString ->
  getClosestCard U DATA input = getCard DATA cardId.
Proof.
  intros Hlen Hupper Hkey Hid.
  unfold getClosestCard, acronymShortcut, JS.get.
  rewrite Hkey, Hupper, String.eqb_refl. simpl.
  apply Nat.ltb_lt in Hlen. rewrite Hlen. simpl.
  destruct (String.eqb_spec cardId EmptyString); [contradiction|reflexivity].
Qed.

(** C2 (as amended): when the normalised query is longer than one
    character, the raw query equals its upper-case form and the normalised
    query is a key of the acronym index with a non-empty identifier,
    [getClosestCard] returns the entry stored under that identifier.  The
    result mentions neither the title list nor [bestMatch]: no tier is
    evaluated. *)
Theorem acronym_shortcut_returns_mapped
        (U : Utility) (DATA : WrData) (input cardId : string) :
  (1 < String.length (normalise U input))%nat ->
  JS.toUpperCase input = input ->
  acronymsToCardIds DATA !! normalise U input = Some cardId ->
  cardId <> EmptyString ->
  acronymShortcut U DATA input = true
  /\ getClosestCard U DATA input = getCard DATA cardId.
Proof.
  intros Hlen Hupper Hkey Hid.
  assert (Hguard : acronymShortcut U DATA input = true).
  { unfold acronymShortcut, JS.get. rewrite Hkey, Hupper, String.eqb_refl. simpl.
    apply Nat.ltb_lt in Hlen. rewrite Hlen. simpl.
    destruct (String.eqb_spec cardId EmptyString); [contradiction|reflexivity]. }
  split; [exact Hguard|].
  unfold getClosestCard. rewrite Hguard. unfold JS.get. rewrite Hkey. reflexivity.
Qed.

Lemma acronym_shortcut_returns_mapped_witness :
  acronymShortcut Examples.helpers
    (Examples.indexOf [Examples.flameWard; Examples.few]) "FW" = true
  /\ getClosestCard Examples.helpers
       (Examples.indexOf [Examples.flameWard; Examples.few]) "FW"
     = getCard (Examples.indexOf [Examples.flameWard; Examples.few]) "flame_ward".
Proof.
  apply acronym_shortcut_returns_mapped.
  - vm_compute. lia.
  - reflexivity.
  - vm_compute. reflexivity.
  - discriminate.
Defined.

(** C2, the claim as stated fails: the raw query [A!] is upper-case and has
    length 2, and its normalised form [a] is a key of the acronym index
    (mapped to "Amber"), yet the shortcut is not taken, because the length
    test reads the normalised query; the tiers answer "Ab". *)
Lemma acronym_shortcut_counterexample :
  let DATA := Examples.indexOf [Examples.amber; Examples.ab] in
  JS.toUpperCase "A!" = "A!"
  /\ (1 < String.length "A!")%nat
  /\ acronymsToCardIds DATA !! normalise Examples.helpers "A!" = Some "amber"
  /\ getCard DATA "amber" = Some Examples.amber
  /\ getClosestCard Examples.helpers DATA "A!" = Some Examples.ab
  /\ getClosestCard Examples.helpers DATA "A!" <> getCard DATA "amber".
Proof.
  cbv zeta. repeat split; try (vm_compute; (reflexivity || lia)).
  vm_compute. discriminate.
Qed.

(** ** The index build *)

Section BuildFacts.

Variable U : Utility.


(** A truthy acronym mapping is never replaced. *)
Lemma acronym_kept (cs : list Card) (acc : Titles) (a v : string) :
  t_acronyms acc !! a = Some v -> v <> EmptyString ->
  t_acronyms (fold_left (cacheTitle U) cs acc) !! a = Some v.
Proof.
  revert acc. induction cs as [|c cs IH]; intros acc Ha Hv; simpl; [exact Ha|].
  apply IH; [|exact Hv]. unfold cacheTitle; simpl.
  destruct (negb (JS.truthyProperty
                    (JS.get (t_acronyms acc)
                       (acronymOf (normalise U (fullNames_frontFace c))))))
    eqn:Hfalsy; [|exact Ha].
  destruct (decide (acronymOf (normalise U (fullNames_frontFace c)) = a)) as [Heq|Hne].
  - unfold JS.get in Hfalsy. rewrite Heq, Ha in Hfalsy. simpl in Hfalsy.
    destruct (String.eqb_spec v EmptyString); [contradiction|discriminate].
  - rewrite lookup_insert_ne by exact Hne. exact Ha.
Qed.

(** Cards with other acronyms leave an acronym unmapped. *)
Lemma acronym_absent (cs : list Card) (acc : Titles) (a : string) :
  t_acronyms acc !! a = None ->
  Forall (fun c => cardAcronym U c <> a) cs ->
  t_acronyms (fold_left (cacheTitle U) cs acc) !! a = None.
Proof.
  revert acc. induction cs as [|c cs IH]; intros acc Ha Hcs; simpl; [exact Ha|].
  inversion Hcs as [|? ? Hc Hrest]; subst.
  apply IH; [|exact Hrest]. unfold cacheTitle; simpl.
  destruct (negb _); [|exact Ha].
  rewrite lookup_insert_ne by exact Hc. exact Ha.
Qed.

Lemma acronym_first_writer (pre post : list Card) (c : Card) :
  JS.inheritedName (cardAcronym U c) = false ->
  Forall (fun c' => cardAcronym U c' <> cardAcronym U c) pre ->
  id c <> EmptyString ->
  t_acronyms (cacheTitles U (pre ++ c :: post)) !! cardAcronym U c = Some (id c).
Proof.
  intros Hown Hpre Hid. unfold cacheTitles. rewrite fold_left_app. simpl.
  apply acronym_kept; [|exact Hid].
  unfold cacheTitle at 1; simpl. fold (normalisedTitle U c). fold (cardAcronym U c).
  unfold JS.get.
  rewrite acronym_absent; [|apply lookup_empty|exact Hpre]. rewrite Hown. simpl.
  apply lookup_insert_eq.
Qed.

(** A later card with another normalised title leaves a
    denormalisation entry as it is. *)
Lemma denormalise_kept (cs : list Card) (acc : Titles) (n v : string) :
  t_denormalise acc !! n = Some v ->
  Forall (fun c => normalisedTitle U c <> n) cs ->
  t_denormalise (fold_left (cacheTitle U) cs acc) !! n = Some v.
Proof.
  revert acc. induction cs as [|c cs IH]; intros acc Hn Hcs; simpl; [exact Hn|].
  inversion Hcs as [|? ? Hc Hrest]; subst.
  apply IH; [|exact Hrest]. unfold cacheTitle; simpl.
  rewrite lookup_insert_ne by exact Hc. exact Hn.
Qed.

Lemma denormalise_last_writer (pre post : list Card) (c : Card) :
  Forall (fun c' => normalisedTitle U c' <> normalisedTitle U c) post ->
  t_denormalise (cacheTitles U (pre ++ c :: post)) !! normalisedTitle U c
  = Some (fullNames_frontFace c).
Proof.
  intros Hpost. unfold cacheTitles. rewrite fold_left_app. simpl.
  apply denormalise_kept; [|exact Hpost].
  unfold cacheTitle; simpl. apply lookup_insert_eq.
Qed.

Lemma cacheCards_kept (cs : list Card) (m : gmap string Card) (k : string) (v : Card) :
  m !! k = Some v ->
  Forall (fun c => readId U (fullNames_frontFace c) <> k) cs ->
  fold_left (fun m card => <[readId U (fullNames_frontFace card) := card]> m) cs m !! k
  = Some v.
Proof.
  revert m. induction cs as [|c cs IH]; intros m Hk Hcs; simpl; [exact Hk|].
  inversion Hcs as [|? ? Hc Hrest]; subst.
  apply IH; [|exact Hrest]. rewrite lookup_insert_ne by exact Hc. exact Hk.
Qed.

Lemma cacheCards_last_writer (pre post : list Card) (c : Card) :
  Forall (fun c' => readId U (fullNames_frontFace c') <> readId U (fullNames_frontFace c)) post ->
  cacheCards U (pre ++ c :: post) !! readId U (fullNames_frontFace c) = Some c.
Proof.
  intros Hpost. unfold cacheCards. rewrite fold_left_app. simpl.
  apply cacheCards_kept; [|exact Hpost]. apply lookup_insert_eq.
Qed.


End BuildFacts.

(** C3 (as amended): in a catalogue whose titles are read to plain keys,
    let [c] be the earliest card with its acronym, with a non-empty
    identifier and an acronym that is not a name inherited from
    [Object.prototype].  After the build the acronym index maps that acronym
    to the identifier of [c], whatever cards follow; an upper-case query
    that normalises to the acronym, when the acronym is longer than one
    character, is answered with the entry stored under that identifier; and
    that entry is [c] itself when [readId] of its title is its identifier
    and no later card is stored under the same key. *)
Theorem acronym_collision_first_built
        (U : Utility) (DATA : WrData) (pre post : list Card) (c : Card)
        (es : list Expansion) (input : string) :
  plainCatalogue U (pre ++ c :: post) ->
  JS.inheritedName (cardAcronym U c) = false ->
  Forall (fun c' => cardAcronym U c' <> cardAcronym U c) pre ->
  id c <> EmptyString ->
  let DATA' := loaded U DATA (pre ++ c :: post) es in
  acronymsToCardIds DATA' !! cardAcronym U c = Some (id c)
  /\ (JS.toUpperCase input = input ->
      normalise U input = cardAcronym U c ->
      (1 < String.length (cardAcronym U c))%nat ->
      getClosestCard U DATA' input = getCard DATA' (id c))
  /\ (readId U (fullNames_frontFace c) = id c ->
      Forall (fun c' => readId U (fullNames_frontFace c') <> id c) post ->
      getCard DATA' (id c) = Some c).
Proof.
  intros _ Hown Hpre Hid DATA'.
  assert (Hindex : acronymsToCardIds DATA' !! cardAcronym U c = Some (id c)).
  { unfold DATA', loaded; simpl. apply acronym_first_writer; assumption. }
  split; [exact Hindex|]. split.
  - intros Hupper Hnorm Hlen.
    apply acronym_shortcut_guard; try assumption.
    + rewrite Hnorm. exact Hlen.
    + rewrite Hnorm. exact Hindex.
  - intros Hkey Hpost. unfold DATA', loaded, getCard; simpl.
    rewrite <- Hkey. apply cacheCards_last_writer.
    rewrite Hkey. exact Hpost.
Qed.

Lemma acronym_collision_first_built_witness :
  let DATA' := loaded Examples.helpers Examples.noData
                 [Examples.flameWard; Examples.frostWall] [] in
  cardAcronym Examples.helpers Examples.frostWall = cardAcronym Examples.helpers Examples.flameWard
  /\ acronymsToCardIds DATA' !! "fw" = Some "flame_ward"
  /\ getClosestCard Examples.helpers DATA' "FW" = getCard DATA' "flame_ward"
  /\ getCard DATA' "flame_ward" = Some Examples.flameWard.
Proof.
  intros DATA'.
  destruct (acronym_collision_first_built Examples.helpers Examples.noData
              [] [Examples.frostWall] Examples.flameWard [] "FW")
    as (Hindex & Hquery & Hentry).
  - repeat (constructor; [reflexivity|]). constructor.
  - reflexivity.
  - constructor.
  - discriminate.
  - split; [reflexivity|]. split; [exact Hindex|]. split.
    + apply Hquery; [reflexivity|reflexivity|vm_compute; lia].
    + apply Hentry; [reflexivity|].
      repeat constructor. discriminate.
Defined.

(** C3, the claim as stated fails: "Flames" and "Fro" both derive the
    acronym [f], and the index maps [f] to "Flames", the earlier one; but
    the upper-case acronym query [F] is one character long, so the shortcut
    is not taken and the prefix tier answers "Fro". *)
Lemma acronym_collision_counterexample :
  let DATA := Examples.indexOf [Examples.flames; Examples.fro] in
  cardAcronym Examples.helpers Examples.flames = "f"
  /\ cardAcronym Examples.helpers Examples.fro = "f"
  /\ acronymsToCardIds DATA !! "f" = Some (id Examples.flames)
  /\ JS.toUpperCase "F" = "F"
  /\ normalise Examples.helpers "F" = "f"
  /\ getClosestCard Examples.helpers DATA "F" = Some Examples.fro
  /\ getClosestCard Examples.helpers DATA "F" <> Some Examples.flames.
Proof.
  cbv zeta. repeat split; try (vm_compute; reflexivity).
  vm_compute. discriminate.
Qed.

(** C4 (as amended): the denormalisation map keeps the last writer's value.
    In a catalogue whose titles are read to plain keys, when several cards
    normalise to the same title (other than [__proto__], a key that an
    assignment does not create), the map sends that title to the original
    title of the latest of them. *)
Theorem denormalise_collision_last_built
        (U : Utility) (DATA : WrData) (pre post : list Card) (c : Card)
        (es : list Expansion) :
  plainCatalogue U (pre ++ c :: post) ->
  normalisedTitle U c <> "__proto__" ->
  Forall (fun c' => normalisedTitle U c' <> normalisedTitle U c) post ->
  denormaliseCardTitle (loaded U DATA (pre ++ c :: post) es) (normalisedTitle U c)
  = Some (JS.Own (fullNames_frontFace c)).
Proof.
  intros _ _ Hpost. unfold denormaliseCardTitle, JS.get, loaded; simpl.
  rewrite denormalise_last_writer by exact Hpost. reflexivity.
Qed.

Lemma denormalise_collision_last_built_witness :
  normalisedTitle Examples.helpers Examples.emberCall
  = normalisedTitle Examples.helpers Examples.emberCallCapitals
  /\ denormaliseCardTitle
       (loaded Examples.helpers Examples.noData
          ([Examples.emberCall] ++ Examples.emberCallCapitals :: [Examples.emberStorm]) [])
       (normalisedTitle Examples.helpers Examples.emberCallCapitals)
     = Some (JS.Own "EMBER CALL").
Proof.
  split; [reflexivity|].
  apply (denormalise_collision_last_built Examples.helpers Examples.noData
           [Examples.emberCall] [Examples.emberStorm] Examples.emberCallCapitals []).
  - repeat (constructor; [reflexivity|]). constructor.
  - vm_compute. discriminate.
  - repeat constructor. vm_compute. discriminate.
Defined.

(** C4, the claim as stated fails: "Ember Call" and "EMBER CALL" normalise
    to the same title; after the build that title is denormalised to the
    second card's title, not to the first one's. *)
Lemma denormalise_collision_counterexample :
  let DATA := Examples.indexOf [Examples.emberCall; Examples.emberCallCapitals] in
  normalisedTitle Examples.helpers Examples.emberCall = "ember call"
  /\ normalisedTitle Examples.helpers Examples.emberCallCapitals = "ember call"
  /\ denormaliseCardTitle DATA "ember call" = Some (JS.Own "EMBER CALL")
  /\ denormaliseCardTitle DATA "ember call"
     <> Some (JS.Own (fullNames_frontFace Examples.emberCall)).
Proof.
  cbv zeta. repeat split; try (vm_compute; reflexivity).
  vm_compute. discriminate.
Qed.

(** ** Failure of the build *)

(** C9 (as amended): when the snapshot fetch fails (the request is rejected,
    the response is not a success, or the body does not parse) the build
    throws and the global index is left exactly as it was. *)
Theorem failed_fetch_keeps_index (U : Utility) (DATA : WrData) (r : FetchOutcome) :
  r = NetworkFailure
  \/ (exists json, r = Responded false json)
  \/ r = Responded true None ->
  loadApiData U DATA r = (DATA, Threw).
Proof.
  intros [->|[[json ->]| ->]]; reflexivity.
Qed.

Lemma failed_fetch_keeps_index_witness :
  loadApiData Examples.helpers Examples.emberIndex (Responded false None)
  = (Examples.emberIndex, Threw).
Proof.
  apply failed_fetch_keeps_index. right. left. exists None. reflexivity.
Defined.

(** C9, the claim as stated fails: a body that parses but lacks the
    [expansions] array makes the build throw after the cards, the titles and
    the maps of the previous index have been replaced and its expansions
    emptied. *)
Lemma failed_build_counterexample :
  let r := Responded true
             (Some {| data_cards := Some [Examples.few]; data_expansions := None |}) in
  let after := loadApiData Examples.helpers Examples.emberIndex r in
  snd after = Threw
  /\ normalisedCardTitles Examples.emberIndex
     = ["ember call"; "ember storm"; "calling the storm"]
  /\ normalisedCardTitles (fst after) = ["few"]
  /\ fst after <> Examples.emberIndex.
Proof.
  cbv zeta. repeat split; try (vm_compute; reflexivity).
  intros H. apply (f_equal normalisedCardTitles) in H.
  vm_compute in H. discriminate.
Qed.

(** ** The two versions of [cardToColor] *)

Section ColourFacts.

Variable env : string -> option string.
Variable Num : Type.
Variable toNumber : option string -> Num.

(** C10 (as amended): the two versions of [cardToColor] agree on every
    card that has a stitch icon and on every card without one whose type
    line is "A Resource." or "A Marker."; on any other card the first
    version answers [COLOR_INFO] and the second one [COLOR_NO_DOMAIN]. *)
Theorem cardToColor_versions (card : Card) :
  (JS.truthy (frontFace_stitchIcon card) = true
   \/ frontFace_typeLine card = "A Resource."
   \/ frontFace_typeLine card = "A Marker." ->
   cardToColor_part_002 env toNumber card = cardToColor env toNumber card)
  /\ (JS.truthy (frontFace_stitchIcon card) = false ->
      frontFace_typeLine card <> "A Resource." ->
      frontFace_typeLine card <> "A Marker." ->
      cardToColor env toNumber card = toNumber (env "COLOR_INFO")
      /\ cardToColor_part_002 env toNumber card = toNumber (env "COLOR_NO_DOMAIN")).
Proof.
  unfold cardToColor_part_002, cardToColor, JS.ifTruthy, JS.truthy. split.
  - intros [Hicon|[Hline|Hline]].
    + destruct (frontFace_stitchIcon card) as [icon|]; [|discriminate].
      destruct (String.eqb icon EmptyString); [discriminate|reflexivity].
    + rewrite Hline. simpl.
      destruct (frontFace_stitchIcon card) as [icon|]; [|reflexivity].
      destruct (String.eqb icon EmptyString); reflexivity.
    + rewrite Hline. simpl.
      destruct (frontFace_stitchIcon card) as [icon|]; [|reflexivity].
      destruct (String.eqb icon EmptyString); reflexivity.
  - intros Hicon H1 H2.
    destruct (String.eqb_spec (frontFace_typeLine card) "A Resource."); [contradiction|].
    destruct (String.eqb_spec (frontFace_typeLine card) "A Marker."); [contradiction|].
    simpl.
    destruct (frontFace_stitchIcon card) as [icon|]; [|split; reflexivity].
    destruct (String.eqb icon EmptyString); [split; reflexivity|discriminate].
Qed.

End ColourFacts.

Lemma cardToColor_versions_witness :
  cardToColor_part_002 Inputs.env Inputs.decimal Examples.marker
  = cardToColor Inputs.env Inputs.decimal Examples.marker
  /\ cardToColor Inputs.env Inputs.decimal Examples.few
     = Inputs.decimal (Inputs.env "COLOR_INFO")
  /\ cardToColor_part_002 Inputs.env Inputs.decimal Examples.few
     = Inputs.decimal (Inputs.env "COLOR_NO_DOMAIN").
Proof.
  split.
  - apply (proj1 (cardToColor_versions Inputs.env (option Z) Inputs.decimal Examples.marker)).
    right. right. reflexivity.
  - apply (proj2 (cardToColor_versions Inputs.env (option Z) Inputs.decimal Examples.few));
      [reflexivity|discriminate|discriminate].
Defined.

(** C10, the claim as stated fails: for a card with no stitch icon and the
    type line "A Spell." the two versions return different colours. *)
Lemma cardToColor_versions_counterexample :
  frontFace_stitchIcon Examples.few = None
  /\ cardToColor Inputs.env Inputs.decimal Examples.few = Some 3447003%Z
  /\ cardToColor_part_002 Inputs.env Inputs.decimal Examples.few = Some 9807270%Z
  /\ cardToColor Inputs.env Inputs.decimal Examples.few
     <> cardToColor_part_002 Inputs.env Inputs.decimal Examples.few.
Proof.
  repeat split; try (vm_compute; reflexivity).
  vm_compute. discriminate.
Qed.

(** ** Fenced blocks *)

Lemma string_app_cons (x : ascii) (a b : string) :
  String x a ++ b = String x (a ++ b).
Proof. reflexivity. Qed.

Lemma string_app_nil (b : string) : EmptyString ++ b = b.
Proof. reflexivity. Qed.

Lemma string_app_assoc (a b c : string) : (a ++ b) ++ c = a ++ (b ++ c).
Proof.
  induction a as [|x a IH]; [reflexivity|].
  rewrite !string_app_cons, IH. reflexivity.
Qed.

Lemma string_app_length (a b : string) :
  String.length (a ++ b) = (String.length a + String.length b)%nat.
Proof.
  induction a as [|x a IH]; [reflexivity|].
  rewrite string_app_cons. cbn [String.length]. rewrite IH. reflexivity.
Qed.

Lemma lastChar_app (a b : string) (prev : option ascii) :
  lastChar prev (a ++ b) = lastChar (lastChar prev a) b.
Proof.
  revert prev. induction a as [|x a IH]; intros prev; [reflexivity|].
  rewrite string_app_cons. cbn [lastChar]. apply IH.
Qed.

Lemma findFence_cons_None (c : ascii) (s : string) :
  Scan.findFence (String c s) = None ->
  JS.startsWith (String c s) "```" = false /\ Scan.findFence s = None.
Proof.
  cbn [Scan.findFence]. destruct (JS.startsWith (String c s) "```"); [discriminate|].
  destruct (Scan.findFence s); [discriminate|]. intros _. split; reflexivity.
Qed.

(** No marker starts inside [pre], whatever follows, when none starts
    inside [pre] followed by two backticks. *)
Lemma no_fence_start (c : ascii) (pre rest : string) :
  JS.startsWith (String c pre ++ "``") "```" = false ->
  JS.startsWith (String c pre ++ rest) "```" = false.
Proof.
  destruct pre as [|c2 [|c3 pre]];
    rewrite ?string_app_cons, ?string_app_nil; cbn [JS.startsWith];
    destruct (Ascii.eqb c "`"); try reflexivity; cbn [andb].
  - intros H. vm_compute in H. discriminate H.
  - destruct (Ascii.eqb c2 "`"); [|reflexivity].
    intros H. vm_compute in H. discriminate H.
  - destruct (Ascii.eqb c2 "`"); [|reflexivity].
    destruct (Ascii.eqb c3 "`"); [|reflexivity].
    intros H. vm_compute in H. discriminate H.
Qed.

(** Text without a marker is copied. *)
Lemma replaceFences_plain (pre rest : string) (prev : option ascii) :
  Scan.findFence (pre ++ "``") = None ->
  Scan.replaceFences prev 0 (pre ++ rest)
  = pre ++ Scan.replaceFences (lastChar prev pre) 0 rest.
Proof.
  revert prev. induction pre as [|c pre IH]; intros prev Hpre; [reflexivity|].
  change (String c pre ++ "``") with (String c (pre ++ "``")) in Hpre.
  apply findFence_cons_None in Hpre as [Hstart Hpre].
  change (String c pre ++ rest) with (String c (pre ++ rest)).
  cbn [Scan.replaceFences].
  change (String c (pre ++ rest)) with (String c pre ++ rest).
  rewrite (no_fence_start c pre rest Hstart), andb_false_r.
  rewrite string_app_cons. cbn [lastChar]. rewrite IH by exact Hpre. reflexivity.
Qed.

(** The closing marker of a block is the first triple backtick after the
    opening one. *)
Lemma findFence_closing (body post : string) :
  Scan.findFence (body ++ "``") = None ->
  Scan.findFence (body ++ "```" ++ post) = Some (String.length body).
Proof.
  induction body as [|c body IH]; intros Hbody; [reflexivity|].
  change (String c body ++ "``") with (String c (body ++ "``")) in Hbody.
  apply findFence_cons_None in Hbody as [Hstart Hbody].
  change (String c body ++ "```" ++ post) with (String c (body ++ "```" ++ post)).
  cbn [Scan.findFence].
  change (String c (body ++ "```" ++ post)) with (String c body ++ "```" ++ post).
  rewrite (no_fence_start c body _ Hstart), IH by exact Hbody. reflexivity.
Qed.

Lemma replaceFences_skip (x y : string) (prev : option ascii) :
  Scan.replaceFences prev (String.length x) (x ++ y)
  = Scan.replaceFences (lastChar prev x) 0 y.
Proof.
  revert prev. induction x as [|c x IH]; intros prev; [reflexivity|].
  rewrite string_app_cons. cbn [String.length Scan.replaceFences lastChar].
  apply IH.
Qed.

Lemma replaceFences_lookbehind (p p' : option ascii) (s : string) :
  Scan.isBackslash p = Scan.isBackslash p' ->
  Scan.replaceFences p 0 s = Scan.replaceFences p' 0 s.
Proof. intros H. destruct s; [reflexivity|]. cbn [Scan.replaceFences]. rewrite H. reflexivity. Qed.

(** A block opened by an unescaped marker is removed up to the first
    triple backtick after the marker. *)
Lemma replaceFences_block (body post : string) (prev : option ascii) :
  Scan.isBackslash prev = false ->
  Scan.findFence (body ++ "``") = None ->
  Scan.replaceFences prev 0 ("```" ++ body ++ "```" ++ post)
  = Scan.replaceFences (Some "`"%char) 0 post.
Proof.
  intros Hprev Hbody.
  change ("```" ++ body ++ "```" ++ post)
    with (String "`" ("``" ++ body ++ "```" ++ post)).
  cbn [Scan.replaceFences]. rewrite Hprev.
  change (Scan.dropChars 3 (String "`" ("``" ++ body ++ "```" ++ post)))
    with (body ++ "```" ++ post).
  rewrite (findFence_closing body post Hbody).
  change (negb false && JS.startsWith (String "`" ("``" ++ body ++ "```" ++ post)) "```")
    with true.
  cbv iota.
  replace ("``" ++ body ++ "```" ++ post) with (("``" ++ body ++ "```") ++ post)
    by (rewrite !string_app_assoc; reflexivity).
  replace (String.length body + 5)%nat with (String.length ("``" ++ body ++ "```"))
    by (rewrite !string_app_length; simpl; lia).
  rewrite replaceFences_skip, !lastChar_app. reflexivity.
Qed.

(** Removing the first block of a text: the filtered text is that of the
    text without the block. *)
Lemma replaceFences_first_block (pre body post : string) :
  Scan.findFence (pre ++ "``") = None ->
  endsWithBackslash pre = false ->
  Scan.findFence (body ++ "``") = None ->
  Scan.replaceFences None 0 (pre ++ "```" ++ body ++ "```" ++ post)
  = Scan.replaceFences None 0 (pre ++ post).
Proof.
  intros Hpre Hend Hbody.
  rewrite (replaceFences_plain pre post) by exact Hpre.
  rewrite replaceFences_plain by exact Hpre.
  rewrite replaceFences_block by assumption.
  f_equal. apply replaceFences_lookbehind. symmetry. exact Hend.
Qed.

Lemma replaceFences_no_fence (s : string) (prev : option ascii) :
  Scan.findFence s = None -> Scan.replaceFences prev 0 s = s.
Proof.
  revert prev. induction s as [|c s IH]; intros prev Hs; [reflexivity|].
  apply findFence_cons_None in Hs as [Hstart Hs].
  cbn [Scan.replaceFences]. rewrite Hstart, andb_false_r, IH by exact Hs.
  reflexivity.
Qed.

Lemma lastChar_not_backslash (plain : string) (prev : option ascii) :
  Scan.isBackslash prev = false ->
  endsWithBackslash plain = false ->
  Scan.isBackslash (lastChar prev plain) = false.
Proof. intros Hprev Hend. destruct plain; [exact Hprev|exact Hend]. Qed.

(** Every block of a well-fenced text is removed, and nothing else. *)
Lemma replaceFences_render (blocks : list (string * string)) (tail : string)
      (prev : option ascii) :
  Forall wellFenced blocks ->
  Scan.findFence tail = None ->
  Scan.isBackslash prev = false ->
  Scan.replaceFences prev 0 (render blocks tail) = withoutBlocks blocks tail.
Proof.
  intros Hblocks Htail. revert prev.
  induction Hblocks as [|[plain body] more (Hplain & Hend & Hbody) _ IH];
    intros prev Hprev; cbn [render withoutBlocks].
  - apply replaceFences_no_fence, Htail.
  - cbn [fst snd] in Hplain, Hend, Hbody.
    rewrite replaceFences_plain by exact Hplain.
    rewrite replaceFences_block
      by (try exact Hbody; apply lastChar_not_backslash; assumption).
    rewrite IH by reflexivity. reflexivity.
Qed.

(** The extractor on a well-fenced text reads the text outside the blocks
    only. *)
Lemma blocks_of_fenced_text_ignored
      (U : Utility) (DATA : WrData) (limit : Z)
      (blocks : list (string * string)) (tail : string) :
  Forall wellFenced blocks ->
  Scan.findFence tail = None ->
  parseInlineCommands U DATA limit (render blocks tail)
  = parseMatches U DATA (Scan.matchAll 0 (withoutBlocks blocks tail)) limit [].
Proof.
  intros Hblocks Htail. unfold parseInlineCommands.
  rewrite replaceFences_render by (try assumption; reflexivity). reflexivity.
Qed.

Lemma findUnescapedFence_cons_None (prev : option ascii) (c : ascii) (s : string) :
  findUnescapedFence prev (String c s) = None ->
  negb (Scan.isBackslash prev) && JS.startsWith (String c s) "```" = false
  /\ findUnescapedFence (Some c) s = None.
Proof.
  cbn [findUnescapedFence].
  destruct (negb (Scan.isBackslash prev) && JS.startsWith (String c s) "```");
    [discriminate|].
  destruct (findUnescapedFence (Some c) s); [discriminate|].
  intros _. split; reflexivity.
Qed.

Lemma findUnescapedFence_lookbehind (p p' : option ascii) (s : string) :
  Scan.isBackslash p = Scan.isBackslash p' ->
  findUnescapedFence p s = findUnescapedFence p' s.
Proof.
  intros H. destruct s; [reflexivity|]. cbn [findUnescapedFence].
  rewrite H. reflexivity.
Qed.

(** Text in which every marker is escaped is copied: the look-behind
    rejects each of them. *)
Lemma replaceFences_escaped_plain (pre rest : string) (prev : option ascii) :
  findUnescapedFence prev (pre ++ "``") = None ->
  Scan.replaceFences prev 0 (pre ++ rest)
  = pre ++ Scan.replaceFences (lastChar prev pre) 0 rest.
Proof.
  revert prev. induction pre as [|c pre IH]; intros prev Hpre; [reflexivity|].
  change (String c pre ++ "``") with (String c (pre ++ "``")) in Hpre.
  apply findUnescapedFence_cons_None in Hpre as [Hstart Hpre].
  change (String c pre ++ rest) with (String c (pre ++ rest)).
  cbn [Scan.replaceFences].
  assert (Htest : negb (Scan.isBackslash prev)
                  && JS.startsWith (String c (pre ++ rest)) "```" = false).
  { destruct (Scan.isBackslash prev); [reflexivity|].
    cbn [negb andb] in Hstart |- *.
    change (String c (pre ++ rest)) with (String c pre ++ rest).
    apply no_fence_start. exact Hstart. }
  rewrite Htest, string_app_cons. cbn [lastChar].
  rewrite IH by exact Hpre. reflexivity.
Qed.

Lemma replaceFences_no_unescaped (s : string) (prev : option ascii) :
  findUnescapedFence prev s = None -> Scan.replaceFences prev 0 s = s.
Proof.
  revert prev. induction s as [|c s IH]; intros prev Hs; [reflexivity|].
  apply findUnescapedFence_cons_None in Hs as [Hstart Hs].
  cbn [Scan.replaceFences]. rewrite Hstart, IH by exact Hs. reflexivity.
Qed.

(** The replacement removes the blocks of a text, one after the other, and
    goes on with the rest. *)
Lemma replaceFences_blocks (blocks : list (string * string)) (post : string)
      (prev : option ascii) :
  Forall fencedBlock blocks ->
  Scan.isBackslash prev = false ->
  Scan.replaceFences prev 0 (render blocks post)
  = withoutBlocks blocks (Scan.replaceFences None 0 post).
Proof.
  intros Hblocks. revert prev.
  induction Hblocks as [|[plain body] more (Hplain & Hend & Hbody) _ IH];
    intros prev Hprev; cbn [render withoutBlocks].
  - apply replaceFences_lookbehind. exact Hprev.
  - cbn [fst snd] in Hplain, Hend, Hbody.
    rewrite replaceFences_escaped_plain
      by (rewrite (findUnescapedFence_lookbehind prev None) by exact Hprev;
          exact Hplain).
    rewrite replaceFences_block
      by (try exact Hbody; apply lastChar_not_backslash; assumption).
    rewrite IH by reflexivity. reflexivity.
Qed.

Lemma take_drop_chars (n : nat) (s : string) :
  takeChars n s ++ Scan.dropChars n s = s.
Proof.
  revert s. induction n as [|n IH]; intros [|c s]; try reflexivity.
  cbn [takeChars Scan.dropChars]. rewrite string_app_cons, IH. reflexivity.
Qed.

Lemma dropChars_add (n m : nat) (s : string) :
  Scan.dropChars (n + m) s = Scan.dropChars m (Scan.dropChars n s).
Proof.
  revert s. induction n as [|n IH]; intros s; [reflexivity|].
  destruct s as [|c s]; cbn [Nat.add Scan.dropChars].
  - destruct m; reflexivity.
  - apply IH.
Qed.

Lemma dropChars_length (n : nat) (s : string) :
  (String.length (Scan.dropChars n s) <= String.length s)%nat.
Proof.
  revert s. induction n as [|n IH]; intros [|c s]; cbn [Scan.dropChars String.length]; try lia.
  specialize (IH s). lia.
Qed.

Lemma startsWith_split (s q : string) :
  JS.startsWith s q = true -> s = q ++ Scan.dropChars (String.length q) s.
Proof.
  revert s. induction q as [|b q IH]; intros s H; [reflexivity|].
  destruct s as [|a s]; cbn [JS.startsWith] in H; [discriminate|].
  apply andb_true_iff in H as [Hab H].
  apply Ascii.eqb_eq in Hab as ->.
  rewrite string_app_cons. cbn [String.length Scan.dropChars].
  f_equal. apply IH, H.
Qed.

(** Before a marker, the text cut at the marker and followed by two
    backticks starts a marker where the text does. *)
Lemma marker_seen (c : ascii) (i : nat) (s : string) :
  JS.startsWith (Scan.dropChars i s) "```" = true ->
  JS.startsWith (String c (takeChars i s ++ "``")) "```"
  = JS.startsWith (String c s) "```".
Proof.
  intros H.
  destruct i as [|[|i]].
  - cbn [Scan.dropChars] in H. apply startsWith_split in H. rewrite H.
    reflexivity.
  - destruct s as [|a s]; [cbn [Scan.dropChars JS.startsWith] in H; discriminate H|].
    cbn [Scan.dropChars] in H. apply startsWith_split in H. rewrite H.
    cbn [takeChars]. rewrite !string_app_cons, !string_app_nil.
    cbn [JS.startsWith]. destruct (Ascii.eqb c "`"), (Ascii.eqb a "`"); reflexivity.
  - destruct s as [|a [|b s]];
      try (cbn [Scan.dropChars JS.startsWith] in H; discriminate H).
    cbn [takeChars]. rewrite !string_app_cons.
    cbn [JS.startsWith]. reflexivity.
Qed.

Lemma unescaped_marker_at (prev : option ascii) (s : string) (i : nat) :
  findUnescapedFence prev s = Some i ->
  JS.startsWith (Scan.dropChars i s) "```" = true
  /\ Scan.isBackslash (lastChar prev (takeChars i s)) = false
  /\ findUnescapedFence prev (takeChars i s ++ "``") = None.
Proof.
  revert prev i. induction s as [|c s IH]; intros prev i H; [discriminate H|].
  cbn [findUnescapedFence] in H.
  destruct (negb (Scan.isBackslash prev) && JS.startsWith (String c s) "```") eqn:Htest.
  - injection H as <-. apply andb_true_iff in Htest as [Hprev Hstart].
    cbn [Scan.dropChars takeChars lastChar]. split; [exact Hstart|].
    split; [destruct (Scan.isBackslash prev); [discriminate Hprev|reflexivity]|].
    rewrite string_app_nil. cbn [findUnescapedFence JS.startsWith].
    rewrite !andb_false_r. reflexivity.
  - destruct (findUnescapedFence (Some c) s) as [j|] eqn:Hj; [|discriminate H].
    injection H as <-. destruct (IH (Some c) j Hj) as (Hstart & Hlast & Hnone).
    cbn [Scan.dropChars takeChars lastChar]. split; [exact Hstart|].
    split; [exact Hlast|].
    rewrite string_app_cons. cbn [findUnescapedFence].
    rewrite (marker_seen c j s Hstart), Htest, Hnone. reflexivity.
Qed.

Lemma marker_at (s : string) (n : nat) :
  Scan.findFence s = Some n ->
  JS.startsWith (Scan.dropChars n s) "```" = true
  /\ Scan.findFence (takeChars n s ++ "``") = None.
Proof.
  revert n. induction s as [|c s IH]; intros n H; [discriminate H|].
  cbn [Scan.findFence] in H.
  destruct (JS.startsWith (String c s) "```") eqn:Htest.
  - injection H as <-. cbn [Scan.dropChars takeChars]. split; [exact Htest|].
    reflexivity.
  - destruct (Scan.findFence s) as [j|] eqn:Hj; [|discriminate H].
    injection H as <-. destruct (IH j eq_refl) as (Hstart & Hnone).
    cbn [Scan.dropChars takeChars]. split; [exact Hstart|].
    rewrite string_app_cons. cbn [Scan.findFence].
    rewrite (marker_seen c j s Hstart), Htest, Hnone. reflexivity.
Qed.

(** Cutting a text at a marker. *)
Lemma cut_at_marker (i : nat) (s : string) :
  JS.startsWith (Scan.dropChars i s) "```" = true ->
  s = takeChars i s ++ "```" ++ Scan.dropChars (i + 3) s
  /\ (String.length (Scan.dropChars (i + 3) s) < String.length s)%nat.
Proof.
  intros H. pose proof (startsWith_split _ _ H) as Hsplit.
  cbn [String.length] in Hsplit.
  rewrite dropChars_add. split.
  - rewrite <- Hsplit. symmetry. apply take_drop_chars.
  - pose proof (dropChars_length i s) as Hlen.
    rewrite Hsplit in Hlen at 1. rewrite string_app_length in Hlen.
    cbn [String.length] in Hlen. cbn [String.length]. lia.
Qed.

Lemma findFence_drop (s : string) :
  Scan.findFence s = None -> Scan.findFence (Scan.dropChars 1 s) = None.
Proof.
  destruct s as [|c s]; [reflexivity|]. intros H.
  apply findFence_cons_None in H as [_ H]. exact H.
Qed.

Lemma dropChars_3_tail (c : ascii) (s : string) :
  Scan.dropChars 3 s = Scan.dropChars 1 (Scan.dropChars 3 (String c s)).
Proof.
  destruct s as [|a [|b [|d s]]]; reflexivity.
Qed.

(** A text whose markers have no closing marker is left as it is. *)
Lemma replaceFences_unclosed (s : string) (prev : option ascii) :
  Scan.findFence (Scan.dropChars 3 s) = None ->
  Scan.replaceFences prev 0 s = s.
Proof.
  revert prev. induction s as [|c s IH]; intros prev H; [reflexivity|].
  cbn [Scan.replaceFences]. rewrite H.
  rewrite IH by (rewrite (dropChars_3_tail c); apply findFence_drop, H).
  destruct (negb (Scan.isBackslash prev) && JS.startsWith (String c s) "```");
    reflexivity.
Qed.

Lemma replaceFences_noBlock (s : string) :
  noBlock s -> Scan.replaceFences None 0 s = s.
Proof.
  unfold noBlock. destruct (findUnescapedFence None s) as [i|] eqn:Hi.
  - intros Hclosing.
    destruct (unescaped_marker_at None s i Hi) as (Hstart & _ & Hnone).
    destruct (cut_at_marker i s Hstart) as [Hcut _].
    rewrite Hcut at 1.
    rewrite replaceFences_escaped_plain by exact Hnone.
    rewrite replaceFences_unclosed.
    + symmetry. exact Hcut.
    + exact Hclosing.
  - intros _. apply replaceFences_no_unescaped, Hi.
Qed.

Lemma cutBlocks_spec (fuel : nat) (s : string) :
  (String.length s <= fuel)%nat ->
  s = render (fst (cutBlocks fuel s)) (snd (cutBlocks fuel s))
  /\ Forall fencedBlock (fst (cutBlocks fuel s))
  /\ noBlock (snd (cutBlocks fuel s)).
Proof.
  revert s. induction fuel as [|fuel IH]; intros s Hfuel.
  - destruct s; [|cbn [String.length] in Hfuel; lia].
    cbn [cutBlocks fst snd render]. repeat split. constructor.
  - cbn [cutBlocks].
    destruct (findUnescapedFence None s) as [i|] eqn:Hi.
    2:{ cbn [fst snd render]. split; [reflexivity|]. split; [constructor|].
        unfold noBlock. rewrite Hi. exact I. }
    cbv zeta.
    destruct (Scan.findFence (Scan.dropChars (i + 3) s)) as [n|] eqn:Hn.
    2:{ cbn [fst snd render]. split; [reflexivity|]. split; [constructor|].
        unfold noBlock. rewrite Hi. exact Hn. }
    destruct (unescaped_marker_at None s i Hi) as (Hstart & Hlast & Hnone).
    destruct (cut_at_marker i s Hstart) as [Hcut Hshorter].
    destruct (marker_at _ n Hn) as (Hclose & Hbody).
    destruct (cut_at_marker n _ Hclose) as [Hcut' Hshorter'].
    destruct (IH (Scan.dropChars (n + 3) (Scan.dropChars (i + 3) s))) as (Hrest & Hblocks & Hpost);
      [lia|].
    cbn [fst snd render]. split; [|split].
    + rewrite <- Hrest, <- Hcut'. exact Hcut.
    + constructor; [|exact Hblocks].
      split; [exact Hnone|]. split; [exact Hlast|exact Hbody].
    + exact Hpost.
Qed.

(** C8 (as amended): every text is cut, left to right, into plain runs and
    fenced blocks followed by a rest in which no block opens; a block starts
    at a triple backtick that no backslash precedes and ends at the first
    triple backtick after it, escaped or not, and a plain run may hold
    escaped markers.  The replacement of line 153 takes out the blocks and
    nothing else: the filtered text is the plain runs followed by the rest,
    and the extractor scans that text, so that the spans inside a block
    produce nothing and the spans outside are answered. *)
Theorem fenced_block_ignored
        (U : Utility) (DATA : WrData) (limit : Z) (text : string) :
  text = render (blocksOf text) (restOf text)
  /\ Forall fencedBlock (blocksOf text)
  /\ noBlock (restOf text)
  /\ Scan.replaceFences None 0 text = withoutBlocks (blocksOf text) (restOf text)
  /\ parseInlineCommands U DATA limit text
     = parseMatches U DATA
         (Scan.matchAll 0 (withoutBlocks (blocksOf text) (restOf text))) limit [].
Proof.
  destruct (cutBlocks_spec (String.length text) text (le_n _))
    as (Hcut & Hblocks & Hrest).
  fold (blocksOf text) in Hcut, Hblocks. fold (restOf text) in Hcut, Hrest.
  assert (Hfiltered :
    Scan.replaceFences None 0 text = withoutBlocks (blocksOf text) (restOf text)).
  { rewrite Hcut at 1.
    rewrite replaceFences_blocks by (try exact Hblocks; reflexivity).
    rewrite replaceFences_noBlock by exact Hrest. reflexivity. }
  split; [exact Hcut|]. split; [exact Hblocks|]. split; [exact Hrest|].
  split; [exact Hfiltered|].
  unfold parseInlineCommands. rewrite Hfiltered. reflexivity.
Qed.

Lemma fenced_block_ignored_witness :
  blocksOf "an escaped \``` marker, then ```[[Ember Call]]``` and ```{{Calling the Storm}}``` text outside a fence [[Ember Storm]]"
  = [("an escaped \``` marker, then ", "[[Ember Call]]");
     (" and ", "{{Calling the Storm}}")]
  /\ Scan.replaceFences None 0
       "an escaped \``` marker, then ```[[Ember Call]]``` and ```{{Calling the Storm}}``` text outside a fence [[Ember Storm]]"
     = "an escaped \``` marker, then  and  text outside a fence [[Ember Storm]]"
  /\ parseInlineCommands Examples.helpers Examples.emberIndex 5
       "an escaped \``` marker, then ```[[Ember Call]]``` and ```{{Calling the Storm}}``` text outside a fence [[Ember Storm]]"
     = [CardEmbed Examples.emberStorm].
Proof.
  destruct (fenced_block_ignored Examples.helpers Examples.emberIndex 5
              "an escaped \``` marker, then ```[[Ember Call]]``` and ```{{Calling the Storm}}``` text outside a fence [[Ember Storm]]")
    as (_ & _ & _ & Hfiltered & Hsent).
  split; [vm_compute; reflexivity|]. split.
  - rewrite Hfiltered. vm_compute. reflexivity.
  - rewrite Hsent. vm_compute. reflexivity.
Defined.

(** The case of section 8 of the specification. *)
Example fenced_block_of_the_spec :
  parseInlineCommands Examples.helpers Examples.emberIndex 5
    "```[[Ember Call]]``` text outside a fence [[Ember Storm]]"
  = [CardEmbed Examples.emberStorm].
Proof. vm_compute. reflexivity. Qed.

(** C8, the claim as stated fails: in the text below the marker at offset 0
    is unescaped and the first unescaped marker after it is the last one, so
    the region delimited by unescaped markers on both ends is the whole text
    and the span lies inside it; the replacement stops at the escaped marker
    in between, and the span is extracted. *)
Lemma fenced_block_counterexample :
  let body := "a\```[[Ember Call]]" in
  findUnescapedFence (Some "`"%char) (body ++ "```") = Some (String.length body)
  /\ Scan.replaceFences None 0 ("```" ++ body ++ "```") = "[[Ember Call]]```"
  /\ parseInlineCommands Examples.helpers Examples.emberIndex 5 ("```" ++ body ++ "```")
     = [CardEmbed Examples.emberCall]
  /\ parseInlineCommands Examples.helpers Examples.emberIndex 5 ("```" ++ body ++ "```")
     <> parseInlineCommands Examples.helpers Examples.emberIndex 5 EmptyString.
Proof.
  cbv zeta. repeat split; try (vm_compute; reflexivity).
  vm_compute. discriminate.
Qed.

(** ** The loop over the matches *)

Section LoopFacts.

Variable U : Utility.
Variable DATA : WrData.

(** An empty or over-long span ends the loop: the remaining matches are
    not visited. *)
Lemma invalid_span_ends_loop (match_ : string) (rest : list string)
      (countdown : Z) (cards_ : list string) :
  rawInputOf match_ = EmptyString
  \/ (255 < String.length (rawInputOf match_))%nat ->
  parseMatches U DATA (match_ :: rest) countdown cards_ = [].
Proof.
  intros H. cbn [parseMatches]. destruct (countdown <? 1)%Z; [reflexivity|].
  destruct H as [-> | H]; [reflexivity|].
  apply Nat.ltb_lt in H. rewrite H, orb_true_r. reflexivity.
Qed.

(** A span that reaches [parseCard] costs one unit of the countdown,
    whatever [parseCard] did with it. *)
Lemma valid_span_costs_slot (match_ : string) (rest : list string)
      (countdown : Z) (cards_ : list string) :
  (1 <= countdown)%Z ->
  rawInputOf match_ <> EmptyString ->
  (String.length (rawInputOf match_) <= 255)%nat ->
  parseMatches U DATA (match_ :: rest) countdown cards_
  = (pc_sent (parseCard U DATA match_ (rawInputOf match_) cards_)
     ++ parseMatches U DATA rest (countdown - 1)
          (pc_cards (parseCard U DATA match_ (rawInputOf match_) cards_)))%list.
Proof.
  intros Hcount Hne Hlen. cbn [parseMatches].
  destruct (Z.ltb_spec countdown 1); [lia|].
  destruct (String.eqb_spec (rawInputOf match_) EmptyString); [contradiction|].
  destruct (Nat.ltb_spec 255 (String.length (rawInputOf match_))); [lia|].
  reflexivity.
Qed.

(** In particular a span for which no card is found sends nothing and
    still costs a unit. *)
Lemma unresolved_span_costs_slot (match_ : string) (rest : list string)
      (countdown : Z) (cards_ : list string) :
  (1 <= countdown)%Z ->
  rawInputOf match_ <> EmptyString ->
  (String.length (rawInputOf match_) <= 255)%nat ->
  getClosestCard U DATA (applyAlias U (rawInputOf match_)) = None ->
  parseMatches U DATA (match_ :: rest) countdown cards_
  = parseMatches U DATA rest (countdown - 1) cards_.
Proof.
  intros Hcount Hne Hlen Hnone.
  rewrite valid_span_costs_slot by assumption.
  unfold parseCard. rewrite Hnone. reflexivity.
Qed.

(** So does a span that resolves to a card already sent. *)
Lemma duplicate_span_costs_slot (match_ : string) (rest : list string)
      (countdown : Z) (cards_ : list string) (card : Card) :
  (1 <= countdown)%Z ->
  rawInputOf match_ <> EmptyString ->
  (String.length (rawInputOf match_) <= 255)%nat ->
  getClosestCard U DATA (applyAlias U (rawInputOf match_)) = Some card ->
  In (id card) cards_ ->
  parseMatches U DATA (match_ :: rest) countdown cards_
  = parseMatches U DATA rest (countdown - 1) cards_.
Proof.
  intros Hcount Hne Hlen Hcard Hin.
  rewrite valid_span_costs_slot by assumption.
  unfold parseCard. rewrite Hcard.
  assert (Hdup : existsb (String.eqb (id card)) cards_ = true).
  { apply existsb_exists. exists (id card). split; [exact Hin|].
    apply String.eqb_refl. }
  rewrite Hdup. reflexivity.
Qed.

Lemma not_previous (x : string) (l : list string) :
  existsb (String.eqb x) l = false -> ~ In x l.
Proof.
  intros H Hin.
  assert (Htrue : existsb (String.eqb x) l = true).
  { apply existsb_exists. exists x. split; [exact Hin|apply String.eqb_refl]. }
  congruence.
Qed.

(** The embeds sent by the loop are for pairwise distinct identifiers,
    none of them already in [previousCards]. *)
Lemma parseMatches_fresh (matches : list string) (countdown : Z)
      (cards_ : list string) :
  NoDup (map (fun e => id (embedCard e)) (parseMatches U DATA matches countdown cards_))
  /\ (forall e, In e (parseMatches U DATA matches countdown cards_) ->
                ~ In (id (embedCard e)) cards_).
Proof.
  revert countdown cards_.
  induction matches as [|match_ rest IH]; intros countdown cards_.
  { split; [constructor|intros e []]. }
  cbn [parseMatches].
  destruct (countdown <? 1)%Z; [split; [constructor|intros e []]|].
  destruct (_ || _); [split; [constructor|intros e []]|].
  unfold parseCard.
  destruct (getClosestCard U DATA (applyAlias U (rawInputOf match_))) as [card|];
    [|apply IH].
  destruct (existsb (String.eqb (id card)) cards_) eqn:Hseen; [apply IH|].
  cbn [pc_sent pc_cards pc_promise truthyPromise].
  destruct (IH (countdown - 1)%Z (cards_ ++ [id card])%list) as [Hnodup Hfresh].
  set (e0 := if JS.startsWith match_ "[" then CardEmbed card else CardImageEmbed card).
  assert (He0 : id (embedCard e0) = id card)
    by (unfold e0; destruct (JS.startsWith match_ "["); reflexivity).
  split.
  - change (NoDup (id (embedCard e0)
              :: map (fun e => id (embedCard e))
                   (parseMatches U DATA rest (countdown - 1) (cards_ ++ [id card])))).
    constructor; [|exact Hnodup].
    rewrite He0. intros Hin. apply list_elem_of_In in Hin.
    apply in_map_iff in Hin as (e & Heq & He).
    apply (Hfresh e He). rewrite Heq. apply in_or_app. right. left. reflexivity.
  - intros e [<-|He].
    + rewrite He0. apply not_previous, Hseen.
    + intros Hin. apply (Hfresh e He). apply in_or_app. left. exact Hin.
Qed.

(** The first half of C7 holds of the code: at most one embed per
    identifier. *)
Lemma parseInlineCommands_distinct (limit : Z) (content : string) :
  NoDup (map (fun e => id (embedCard e)) (parseInlineCommands U DATA limit content)).
Proof. unfold parseInlineCommands. apply parseMatches_fresh. Qed.

End LoopFacts.

(** C5, the code at the failing inputs: a span with empty inner text, or one
    with 300 characters, followed by a valid span.  The scanner finds both
    spans, and the valid one alone is answered; but the loop returns at the
    first one and nothing is sent. *)
Theorem rejected_span_aborts_scan :
  Scan.matchAll 0 "[[ ]] [[Ember Call]]" = ["[[ ]]"; "[[Ember Call]]"]
  /\ parseInlineCommands Examples.helpers Examples.emberIndex 5 "[[Ember Call]]"
     = [CardEmbed Examples.emberCall]
  /\ parseInlineCommands Examples.helpers Examples.emberIndex 5 "[[ ]] [[Ember Call]]"
     = []
  /\ parseInlineCommands Examples.helpers Examples.emberIndex 5
       ("[[" ++ Inputs.repeatChar "x" 300 ++ "]] [[Ember Call]]")
     = [].
Proof. repeat split; vm_compute; reflexivity. Qed.

(** C6, the code at the failing input: three spans, two distinct cards and
    a limit of 2.  The second span, a repetition of the first, sends nothing
    and still uses up the second unit of the limit, so that one embed is
    sent where two distinct cards resolve; with a limit of 3 both are
    sent. *)
Theorem limit_counts_processed_spans :
  parseInlineCommands Examples.helpers Examples.emberIndex 2
    "[[Ember Call]] [[ember call]] [[Ember Storm]]"
  = [CardEmbed Examples.emberCall]
  /\ parseInlineCommands Examples.helpers Examples.emberIndex 3
       "[[Ember Call]] [[ember call]] [[Ember Storm]]"
     = [CardEmbed Examples.emberCall; CardEmbed Examples.emberStorm].
Proof. split; vm_compute; reflexivity. Qed.

(** C7, the code at the failing input: the repeated span is not sent twice,
    but it counts against the limit, and the third span, a new card, is
    never reached. *)
Theorem duplicate_uses_a_slot :
  parseInlineCommands Examples.helpers Examples.emberIndex 2
    "{{Ember Storm}} {{ember storm}} {{Ember Call}}"
  = [CardImageEmbed Examples.emberStorm]
  /\ parseInlineCommands Examples.helpers Examples.emberIndex 2
       "{{Ember Storm}} {{Ember Call}}"
     = [CardImageEmbed Examples.emberStorm; CardImageEmbed Examples.emberCall].
Proof. split; vm_compute; reflexivity. Qed.

(** ** The worked cases of section 8 of the specification *)

Example spec_tiered_fallback :
  prefixCandidates (normalisedCardTitles Examples.emberIndex) "storm" = []
  /\ substringCandidates (normalisedCardTitles Examples.emberIndex) "storm"
     = ["ember storm"; "calling the storm"]
  /\ getClosestCard Examples.helpers Examples.emberIndex "storm"
     = Some Examples.emberStorm.
Proof. repeat split; vm_compute; reflexivity. Qed.

Example spec_exactness :
  getClosestCard Examples.helpers Examples.emberIndex "calling the storm"
  = Some Examples.callingTheStorm.
Proof. vm_compute. reflexivity. Qed.

Example spec_acronym_precedence :
  getClosestCard Examples.helpers
    (Examples.indexOf [Examples.flameWard; Examples.frostWall]) "FW"
  = Some Examples.flameWard.
Proof. vm_compute. reflexivity. Qed.

Example spec_dedup :
  parseInlineCommands Examples.helpers Examples.emberIndex 5
    "[[Ember Call]] and [[ember call]]"
  = [CardEmbed Examples.emberCall].
Proof. vm_compute. reflexivity. Qed.

Example spec_cap_enforcement :
  parseInlineCommands Examples.helpers
    (Examples.indexOf
       [Examples.emberCall; Examples.emberStorm; Examples.callingTheStorm;
        Examples.flameWard; Examples.frostWall; Examples.amber; Examples.marker])
    5
    "[[Ember Call]] [[Ember Storm]] [[Calling the Storm]] [[Flame Ward]] [[Frost Wall]] [[Amber]] [[Marker]]"
  = [CardEmbed Examples.emberCall; CardEmbed Examples.emberStorm;
     CardEmbed Examples.callingTheStorm; CardEmbed Examples.flameWard;
     CardEmbed Examples.frostWall].
Proof. vm_compute. reflexivity. Qed.

Example spec_alias_indirection :
  parseInlineCommands (Examples.helpersWith {["ec" := "ember call"]})
    Examples.emberIndex 5 "[[ec]]"
  = [CardEmbed Examples.emberCall].
Proof. vm_compute. reflexivity. Qed.

Example spec_fenced_blocks :
  parseInlineCommands Examples.helpers Examples.emberIndex 5
    (render [(EmptyString, "[[Ember Call]]"); (" and ", "{{Calling the Storm}}")]
       " text outside a fence [[Ember Storm]]")
  = [CardEmbed Examples.emberStorm].
Proof.
  rewrite blocks_of_fenced_text_ignored.
  - vm_compute. reflexivity.
  - repeat constructor.
  - reflexivity.
Qed.

(** * Further properties of the index *)

(** ** Maps filled by a loop of assignments *)

Section KeyedStore.

Context {A : Type}.
Variable key : A -> string.

Lemma keyed_kept (xs : list A) (m : gmap string A) (k : string) (v : A) :
  m !! k = Some v ->
  Forall (fun x => key x <> k) xs ->
  fold_left (fun m x => <[key x := x]> m) xs m !! k = Some v.
Proof.
  revert m. induction xs as [|x xs IH]; intros m Hk Hxs; simpl; [exact Hk|].
  inversion Hxs as [|? ? Hx Hrest]; subst.
  apply IH; [|exact Hrest]. rewrite lookup_insert_ne by exact Hx. exact Hk.
Qed.

Lemma keyed_sound (xs : list A) (m : gmap string A) (k : string) (v : A) :
  fold_left (fun m x => <[key x := x]> m) xs m !! k = Some v ->
  m !! k = Some v \/ (In v xs /\ key v = k).
Proof.
  revert m. induction xs as [|x xs IH]; intros m H; simpl in H; [left; exact H|].
  apply IH in H as [H|[Hin Hkey]].
  - destruct (decide (key x = k)) as [Heq|Hne].
    + rewrite Heq, lookup_insert_eq in H. injection H as <-.
      right. split; [left; reflexivity|exact Heq].
    + rewrite lookup_insert_ne in H by exact Hne. left. exact H.
  - right. split; [right; exact Hin|exact Hkey].
Qed.

Lemma keyed_complete (xs : list A) (m : gmap string A) (x : A) :
  NoDup (map key xs) -> In x xs ->
  fold_left (fun m x => <[key x := x]> m) xs m !! key x = Some x.
Proof.
  revert m. induction xs as [|y xs IH]; intros m Hnodup Hin; [destruct Hin|].
  simpl in Hnodup. apply NoDup_cons in Hnodup as [Hfresh Hnodup].
  destruct Hin as [->|Hin]; simpl.
  - apply keyed_kept; [apply lookup_insert_eq|].
    apply Forall_forall. intros z Hz Heq. apply Hfresh.
    apply list_elem_of_In. rewrite <- Heq. apply in_map.
    apply list_elem_of_In. exact Hz.
  - apply IH; assumption.
Qed.


(** With pairwise distinct keys the map holds exactly the elements of the
    list, each under its key. *)
Lemma keyed_exact (xs : list A) (k : string) (v : A) :
  NoDup (map key xs) ->
  fold_left (fun m x => <[key x := x]> m) xs (∅ : gmap string A) !! k = Some v
  <-> In v xs /\ key v = k.
Proof.
  intros Hnodup. split.
  - intros H. apply keyed_sound in H as [H|H]; [|exact H].
    rewrite lookup_empty in H. discriminate.
  - intros [Hin <-]. apply keyed_complete; assumption.
Qed.

End KeyedStore.

(** Reading an own property. *)
Lemma get_own {V : Type} (object : gmap string V) (key : string) (value : V) :
  JS.get object key = Some (JS.Own value) <-> object !! key = Some value.
Proof.
  unfold JS.get. destruct (object !! key) as [v|].
  - split; intros H; injection H as ->; reflexivity.
  - destruct (JS.inheritedName key); split; discriminate.
Qed.



(** X2: after a load from a catalogue whose titles are read to plain keys
    and from expansions with pairwise distinct identifiers, none of them
    [__proto__], [getExpansion] reads an expansion of its own under an
    identifier exactly when the snapshot has an expansion with that
    identifier, and it is that expansion; under any other key it reads
    what the index inherits, if anything. *)
Theorem getExpansion_exact
        (U : Utility) (DATA : WrData) (cs : list Card) (es : list Expansion)
        (k : string) :
  plainCatalogue U cs ->
  NoDup (map expansion_id es) ->
  Forall (fun e => expansion_id e <> "__proto__") es ->
  (forall e,
     getExpansion (loaded U DATA cs es) k = Some (JS.Own e)
     <-> In e es /\ expansion_id e = k)
  /\ (~ In k (map expansion_id es) ->
      getExpansion (loaded U DATA cs es) k
      = if JS.inheritedName k then Some (JS.Inherited k) else None).
Proof.
  intros _ Hnodup _. unfold loaded, getExpansion; simpl. unfold cacheExpansions.
  split.
  - intros e. rewrite get_own. apply (keyed_exact expansion_id), Hnodup.
  - intros Hout. unfold JS.get.
    destruct (fold_left _ es ∅ !! k) as [e|] eqn:He; [|reflexivity].
    apply (keyed_exact expansion_id es k e Hnodup) in He as [Hin Hid].
    exfalso. apply Hout. rewrite <- Hid. apply in_map, Hin.
Qed.

Lemma getExpansion_exact_witness :
  (forall e,
     getExpansion (loaded Examples.helpers Examples.noData [] [Inputs.coreSet]) "core"
     = Some (JS.Own e)
     <-> In e [Inputs.coreSet] /\ expansion_id e = "core")
  /\ getExpansion (loaded Examples.helpers Examples.noData [] [Inputs.coreSet])
       "constructor"
     = Some (JS.Inherited "constructor").
Proof.
  split.
  - apply (getExpansion_exact Examples.helpers Examples.noData [] [Inputs.coreSet] "core").
    + constructor.
    + apply NoDup_cons. split; [|apply NoDup_nil_2].
      intros H. apply list_elem_of_In in H. destruct H.
    + repeat constructor. discriminate.
  - apply (getExpansion_exact Examples.helpers Examples.noData [] [Inputs.coreSet]
             "constructor").
    + constructor.
    + apply NoDup_cons. split; [|apply NoDup_nil_2].
      intros H. apply list_elem_of_In in H. destruct H.
    + repeat constructor. discriminate.
    + intros [H|[]]. discriminate H.
Defined.

(** ** Titles, denormalisation and acronyms *)

Section TitleFacts.

Variable U : Utility.



Lemma acronym_sound (cs : list Card) (acc : Titles) (a i : string) :
  t_acronyms (fold_left (cacheTitle U) cs acc) !! a = Some i ->
  t_acronyms acc !! a = Some i
  \/ exists c, In c cs /\ cardAcronym U c = a /\ id c = i.
Proof.
  revert acc. induction cs as [|c cs IH]; intros acc H; simpl in H; [left; exact H|].
  apply IH in H as [H|(c' & Hin & Ha & Hi)].
  - unfold cacheTitle in H; simpl in H.
    destruct (negb _) in H; [|left; exact H].
    destruct (decide (acronymOf (normalise U (fullNames_frontFace c)) = a)) as [Heq|Hne].
    + rewrite Heq, lookup_insert_eq in H. injection H as <-.
      right. exists c. split; [left; reflexivity|]. split; [exact Heq|reflexivity].
    + rewrite lookup_insert_ne in H by exact Hne. left. exact H.
  - right. exists c'. split; [right; exact Hin|]. split; assumption.
Qed.

Lemma acronym_defined (cs : list Card) (acc : Titles) (a : string) :
  JS.inheritedName a = false ->
  is_Some (t_acronyms acc !! a) \/ (exists c, In c cs /\ cardAcronym U c = a) ->
  is_Some (t_acronyms (fold_left (cacheTitle U) cs acc) !! a).
Proof.
  intros Hown. revert acc. induction cs as [|c cs IH]; intros acc H; simpl.
  - destruct H as [H|(c & [] & _)]. exact H.
  - apply IH. unfold cacheTitle; simpl.
    assert (Hc : is_Some (t_acronyms acc !! a) \/ cardAcronym U c = a
                 \/ exists c', In c' cs /\ cardAcronym U c' = a).
    { destruct H as [H|(c' & [<-|Hin] & Ha)]; eauto. }
    destruct Hc as [Hc|[Hc|Hc]]; [| |right; exact Hc]; left.
    + destruct (negb _); [|exact Hc].
      destruct (decide (acronymOf (normalise U (fullNames_frontFace c)) = a)) as [Heq|Hne].
      * rewrite Heq, lookup_insert_eq. eexists; reflexivity.
      * rewrite lookup_insert_ne by exact Hne. exact Hc.
    + unfold cardAcronym, normalisedTitle in Hc. rewrite Hc. unfold JS.get.
      destruct (t_acronyms acc !! a) as [i|] eqn:Hi; simpl.
      * destruct (negb _); [rewrite lookup_insert_eq|rewrite Hi]; eexists; reflexivity.
      * rewrite Hown. simpl. rewrite lookup_insert_eq. eexists; reflexivity.
Qed.

(** The build never files an identifier under a name that the acronym
    index inherits: the guard of line 76 reads the inherited member. *)
Lemma acronym_key_own (cs : list Card) (acc : Titles) (a : string) :
  is_Some (t_acronyms (fold_left (cacheTitle U) cs acc) !! a) ->
  is_Some (t_acronyms acc !! a) \/ JS.inheritedName a = false.
Proof.
  revert acc. induction cs as [|c cs IH]; intros acc H; simpl in H; [left; exact H|].
  apply IH in H as [H|H]; [|right; exact H].
  unfold cacheTitle in H; simpl in H.
  destruct (negb _) eqn:Hguard in H; [|left; exact H].
  destruct (decide (acronymOf (normalise U (fullNames_frontFace c)) = a)) as [Heq|Hne].
  - rewrite Heq in Hguard. unfold JS.get in Hguard.
    destruct (t_acronyms acc !! a) as [i|]; [left; eexists; reflexivity|].
    destruct (JS.inheritedName a); [discriminate Hguard|right; reflexivity].
  - rewrite lookup_insert_ne in H by exact Hne. left. exact H.
Qed.

End TitleFacts.




(** X4: after a load from a catalogue whose titles are read to plain keys,
    the acronym index has a key of its own exactly for each acronym of a
    card of the catalogue that is not a name inherited from
    [Object.prototype], and what it holds under an acronym is the identifier
    of a card with that acronym. *)
Theorem acronym_index_of_catalogue
        (U : Utility) (DATA : WrData) (cs : list Card) (es : list Expansion)
        (a : string) :
  plainCatalogue U cs ->
  (is_Some (acronymsToCardIds (loaded U DATA cs es) !! a)
   <-> JS.inheritedName a = false /\ exists c, In c cs /\ cardAcronym U c = a)
  /\ (forall i,
        acronymsToCardIds (loaded U DATA cs es) !! a = Some i ->
        exists c, In c cs /\ cardAcronym U c = a /\ id c = i).
Proof.
  intros _. unfold loaded; simpl. unfold cacheTitles.
  assert (Hsound : forall i,
    t_acronyms (fold_left (cacheTitle U) cs
      {| t_titles := []; t_denormalise := ∅; t_acronyms := ∅ |}) !! a = Some i ->
    exists c, In c cs /\ cardAcronym U c = a /\ id c = i).
  { intros i H. apply acronym_sound in H as [H|H]; [|exact H].
    simpl in H. rewrite lookup_empty in H. discriminate. }
  split; [split|exact Hsound].
  - intros Hkey. split.
    + apply acronym_key_own in Hkey as [[i Hi]|Hown]; [|exact Hown].
      simpl in Hi. rewrite lookup_empty in Hi. discriminate.
    + destruct Hkey as [i H]. apply Hsound in H as (c & Hin & Ha & _). eauto.
  - intros [Hown H]. apply acronym_defined; [exact Hown|]. right. exact H.
Qed.

Lemma acronym_index_of_catalogue_witness :
  (is_Some (acronymsToCardIds
              (loaded Examples.helpers Examples.noData [Examples.flameWard] []) !! "fw")
   <-> JS.inheritedName "fw" = false
       /\ exists c, In c [Examples.flameWard] /\ cardAcronym Examples.helpers c = "fw")
  /\ (forall i,
        acronymsToCardIds
          (loaded Examples.helpers Examples.noData [Examples.flameWard] []) !! "fw"
        = Some i ->
        exists c, In c [Examples.flameWard]
                  /\ cardAcronym Examples.helpers c = "fw" /\ id c = i).
Proof.
  apply (acronym_index_of_catalogue Examples.helpers Examples.noData
           [Examples.flameWard] [] "fw").
  repeat (constructor; [reflexivity|]). constructor.
Defined.

(** ** The prefix buckets *)

Lemma bucketOf_cons (k t : string) (titles : list string) :
  bucketOf k (t :: titles)
  = if String.eqb (firstCharKey t) k then t :: bucketOf k titles
    else bucketOf k titles.
Proof. reflexivity. Qed.

(** What the loop of lines 84-91 leaves under a key: the bucket of the
    titles filed under it, after what was there. *)
Lemma mapTitle_fold (titles : list string) (m : gmap string (list string)) (k : string) :
  fold_left mapTitle titles m !! k
  = match m !! k with
    | Some bucket => Some (bucket ++ bucketOf k titles)%list
    | None =>
        match bucketOf k titles with
        | [] => None
        | (_ :: _) as bucket => Some bucket
        end
    end.
Proof.
  revert m. induction titles as [|t titles IH]; intros m.
  - simpl. destruct (m !! k); [rewrite app_nil_r|]; reflexivity.
  - cbn [fold_left]. rewrite IH, bucketOf_cons. unfold mapTitle. cbv zeta.
    destruct (String.eqb_spec (firstCharKey t) k) as [Heq|Hne].
    + rewrite Heq.
      destruct (m !! k) as [bucket|] eqn:Hm;
        rewrite lookup_insert_eq; [rewrite <- app_assoc|]; reflexivity.
    + destruct (m !! firstCharKey t) as [bucket|];
        rewrite lookup_insert_ne by exact Hne; reflexivity.
Qed.

Lemma startsWith_first_char (title : string) (c : ascii) (rest : string) :
  JS.startsWith title (String c rest) = true ->
  String.eqb (firstCharKey title) (String c EmptyString) = true.
Proof.
  destruct title as [|a title]; cbn [JS.startsWith]; [discriminate|].
  destruct (Ascii.eqb_spec a c) as [->|]; [|discriminate].
  intros _. apply String.eqb_refl.
Qed.

Lemma search_of_loaded
        (U : Utility) (DATA : WrData) (cs : list Card) (es : list Expansion)
        (query : string) :
  searchNormalisedCardTitles (loaded U DATA cs es) query
  = match query with
    | EmptyString => []
    | String _ _ =>
        prefixCandidates (getNormalisedCardTitles (loaded U DATA cs es)) query
    end.
Proof.
  destruct query as [|c rest]; [reflexivity|].
  unfold searchNormalisedCardTitles, getNormalisedCardTitles, prefixCandidates, loaded.
  cbn [fst loadApiData fetchData wellFormed negb data_cards data_expansions
       mappedCardTitles normalisedCardTitles].
  rewrite mapTitle_fold, lookup_empty.
  rewrite <- (filter_filter_weaker _
               (fun title => String.eqb (firstCharKey title) (String c EmptyString))
               (t_titles (cacheTitles U cs)))
    by (intros t; apply startsWith_first_char).
  fold (bucketOf (String c EmptyString) (t_titles (cacheTitles U cs))).
  destruct (bucketOf (String c EmptyString) (t_titles (cacheTitles U cs)));
    reflexivity.
Qed.

(** X5: on a loaded index [searchNormalisedCardTitles] answers the empty
    query with nothing and any other query with all the normalised titles
    that start with it, in catalogue order: the bucket of the first
    character loses no title. *)
Theorem search_is_prefix_filter
        (U : Utility) (DATA : WrData) (cs : list Card) (es : list Expansion)
        (query : string) :
  searchNormalisedCardTitles (loaded U DATA cs es) query
  = match query with
    | EmptyString => []
    | String _ _ =>
        prefixCandidates (getNormalisedCardTitles (loaded U DATA cs es)) query
    end.
Proof. apply search_of_loaded. Qed.



(** ** The resolver, further *)

Lemma includes_empty (s : string) : JS.includes s EmptyString = true.
Proof. destruct s; reflexivity. Qed.

Lemma filter_all {A : Type} (p : A -> bool) (l : list A) :
  (forall x, p x = true) -> List.filter p l = l.
Proof.
  intros Hp. induction l as [|x l IH]; simpl; [reflexivity|].
  rewrite Hp, IH. reflexivity.
Qed.

Lemma chosenTier_empty_query (titles : list string) :
  chosenTier titles EmptyString = titles.
Proof.
  unfold chosenTier, prefixCandidates.
  rewrite filter_all by reflexivity. destruct titles; [|reflexivity].
  reflexivity.
Qed.

(** X7: a query that normalises to the empty string never takes the acronym
    shortcut and is matched against the whole catalogue: every title starts
    with the empty string. *)
Theorem empty_query_searches_everything
        (U : Utility) (DATA : WrData) (input : string) :
  normalise U input = EmptyString ->
  getClosestCard U DATA input
  = match bestMatch U EmptyString (normalisedCardTitles DATA) with
    | Some name => getCard DATA (readId U name)
    | None => None
    end.
Proof.
  intros Hq. rewrite getClosestCard_regular.
  - rewrite Hq, chosenTier_empty_query. reflexivity.
  - unfold acronymShortcut. rewrite Hq. reflexivity.
Qed.

Lemma empty_query_searches_everything_witness :
  getClosestCard Examples.helpers Examples.emberIndex " ?! "
  = match bestMatch Examples.helpers EmptyString
            (normalisedCardTitles Examples.emberIndex) with
    | Some name => getCard Examples.emberIndex (readId Examples.helpers name)
    | None => None
    end.
Proof. apply empty_query_searches_everything. reflexivity. Defined.

Lemma chosenTier_subset (titles : list string) (query name : string) :
  In name (chosenTier titles query) -> In name titles.
Proof.
  unfold chosenTier, prefixCandidates, substringCandidates.
  destruct (List.filter _ titles) as [|a l] eqn:Hp.
  - destruct (List.filter (fun title => JS.includes title query) titles) as [|b k] eqn:Hs.
    + exact (fun H => H).
    + rewrite <- Hs. intros H. apply filter_In in H as [H _]. exact H.
  - rewrite <- Hp. intros H. apply filter_In in H as [H _]. exact H.
Qed.

Lemma chosenTier_prefix (titles : list string) (query name t : string) :
  In t titles -> JS.startsWith t query = true ->
  In name (chosenTier titles query) -> JS.startsWith name query = true.
Proof.
  intros Ht Hstart. unfold chosenTier, prefixCandidates.
  destruct (List.filter _ titles) as [|a l] eqn:Hp.
  - assert (Hin : In t (List.filter (fun title => JS.startsWith title query) titles))
      by (apply filter_In; split; assumption).
    rewrite Hp in Hin. destruct Hin.
  - rewrite <- Hp. intros H. apply filter_In in H as [_ H]. exact H.
Qed.

Lemma chosenTier_substring (titles : list string) (query name t : string) :
  In t titles -> JS.includes t query = true ->
  In name (chosenTier titles query) -> JS.includes name query = true.
Proof.
  intros Ht Hinc. unfold chosenTier, prefixCandidates, substringCandidates.
  destruct (List.filter _ titles) as [|a l] eqn:Hp.
  - destruct (List.filter (fun title => JS.includes title query) titles) as [|b k] eqn:Hs.
    + assert (Hin : In t (List.filter (fun title => JS.includes title query) titles))
        by (apply filter_In; split; assumption).
      rewrite Hs in Hin. destruct Hin.
    + rewrite <- Hs. intros H. apply filter_In in H as [_ H]. exact H.
  - rewrite <- Hp. intros H. apply filter_In in H as [_ H].
    apply startsWith_includes, H.
Qed.

(** X8: when [bestMatch] answers with one of its candidates and the acronym
    shortcut does not fire, the card returned by [getClosestCard] is the one
    stored for a title of the catalogue; that title starts with the query
    whenever some title does, and contains it whenever some title does. *)
Theorem getClosestCard_honours_tiers
        (U : Utility) (DATA : WrData) (input : string) (card : Card) :
  (forall q l n, bestMatch U q l = Some n -> In n l) ->
  acronymShortcut U DATA input = false ->
  getClosestCard U DATA input = Some card ->
  exists name,
    In name (normalisedCardTitles DATA)
    /\ getCard DATA (readId U name) = Some card
    /\ ((exists t, In t (normalisedCardTitles DATA)
                   /\ JS.startsWith t (normalise U input) = true) ->
        JS.startsWith name (normalise U input) = true)
    /\ ((exists t, In t (normalisedCardTitles DATA)
                   /\ JS.includes t (normalise U input) = true) ->
        JS.includes name (normalise U input) = true).
Proof.
  intros Hmember Hguard Hcard.
  rewrite getClosestCard_regular in Hcard by exact Hguard.
  destruct (bestMatch U _ _) as [name|] eqn:Hbest; [|discriminate].
  apply Hmember in Hbest. exists name.
  split; [eapply chosenTier_subset; exact Hbest|].
  split; [exact Hcard|]. split.
  - intros (t & Ht & Hstart). eapply chosenTier_prefix; eassumption.
  - intros (t & Ht & Hinc). eapply chosenTier_substring; eassumption.
Qed.

Lemma bestMatch_member (q : string) (l : list string) (n : string) :
  SpecModel.bestMatch q l = Some n -> In n l.
Proof.
  intros H. destruct l as [|t ts]; [discriminate|].
  destruct (bestMatch_firstClosest q (t :: ts)) as (name & Hname & i & Hi & _);
    [discriminate|].
  rewrite Hname in H. injection H as <-.
  apply list_elem_of_In. eapply list_elem_of_lookup_2. exact Hi.
Qed.

Lemma getClosestCard_honours_tiers_witness :
  exists name,
    In name (normalisedCardTitles Examples.emberIndex)
    /\ getCard Examples.emberIndex (readId Examples.helpers name)
       = Some Examples.emberCall
    /\ ((exists t, In t (normalisedCardTitles Examples.emberIndex)
                   /\ JS.startsWith t (normalise Examples.helpers "Ember") = true) ->
        JS.startsWith name (normalise Examples.helpers "Ember") = true)
    /\ ((exists t, In t (normalisedCardTitles Examples.emberIndex)
                   /\ JS.includes t (normalise Examples.helpers "Ember") = true) ->
        JS.includes name (normalise Examples.helpers "Ember") = true).
Proof.
  apply getClosestCard_honours_tiers.
  - intros q l n. apply bestMatch_member.
  - vm_compute. reflexivity.
  - vm_compute. reflexivity.
Defined.

(** * Further properties of the extractor *)

(** ** The scanner *)

Lemma startsWith_refl_app (x y : string) : JS.startsWith (x ++ y) x = true.
Proof.
  induction x as [|c x IH]; [destruct y; reflexivity|].
  rewrite string_app_cons. cbn [JS.startsWith].
  rewrite Ascii.eqb_refl, IH. reflexivity.
Qed.

Lemma startsWith_app (s opening x : string) :
  JS.startsWith s opening = true ->
  JS.startsWith (Scan.dropChars (String.length opening) s) x = true ->
  JS.startsWith s (opening ++ x) = true.
Proof.
  revert s. induction opening as [|c opening IH]; intros s Hop Hx.
  - rewrite string_app_nil. exact Hx.
  - rewrite string_app_cons. destruct s as [|a s]; [discriminate Hop|].
    cbn [JS.startsWith] in Hop |- *.
    apply andb_prop in Hop as [Hc Hop]. rewrite Hc. cbn [andb].
    apply IH; [exact Hop|exact Hx].
Qed.

Lemma lazyUntil_inner (close s inner : string) :
  Scan.lazyUntil close s = Some inner ->
  noLineTerminator inner = true /\ JS.startsWith s (inner ++ close) = true.
Proof.
  revert inner. induction s as [|c s IH]; intros inner H; [discriminate H|].
  cbn [Scan.lazyUntil] in H.
  destruct (JS.startsWith (String c s) close) eqn:Hclose.
  - injection H as <-. split; [reflexivity|]. rewrite string_app_nil. exact Hclose.
  - destruct (Scan.isLineTerminator c) eqn:Hc; [discriminate H|].
    destruct (Scan.lazyUntil close s) as [inner'|]; [|discriminate H].
    injection H as <-. destruct (IH inner' eq_refl) as [Hno Hstart].
    split.
    + cbn [noLineTerminator]. rewrite Hc, Hno. reflexivity.
    + rewrite string_app_cons. cbn [JS.startsWith].
      rewrite Ascii.eqb_refl, Hstart. reflexivity.
Qed.

Lemma bracketed_shape (opening close s m : string) :
  String.length opening = 2 ->
  Scan.bracketed opening close s = Some m ->
  exists inner,
    m = opening ++ inner ++ close
    /\ noLineTerminator inner = true
    /\ JS.startsWith s m = true.
Proof.
  intros Hlen H. unfold Scan.bracketed in H.
  destruct (JS.startsWith s opening) eqn:Hop; [|discriminate H].
  destruct (Scan.lazyUntil close (Scan.dropChars 2 s)) as [inner|] eqn:Hinner;
    [|discriminate H].
  injection H as <-. apply lazyUntil_inner in Hinner as [Hno Hstart].
  exists inner. split; [reflexivity|]. split; [exact Hno|].
  apply startsWith_app; [exact Hop|]. rewrite Hlen. exact Hstart.
Qed.

Lemma matchAt_shape (s m : string) :
  Scan.matchAt s = Some m ->
  exists opening close inner,
    In (opening, close) bracketPairs
    /\ m = opening ++ inner ++ close
    /\ noLineTerminator inner = true
    /\ JS.startsWith s m = true.
Proof.
  unfold Scan.matchAt. intros H.
  destruct (Scan.bracketed "[[" "]]" s) as [m1|] eqn:H1.
  { injection H as <-. apply bracketed_shape in H1 as (inner & ? & ? & ?);
      [|reflexivity].
    exists "[[", "]]", inner. split; [left; reflexivity|]. repeat split; assumption. }
  destruct (Scan.bracketed "{{" "}}" s) as [m2|] eqn:H2.
  { injection H as <-. apply bracketed_shape in H2 as (inner & ? & ? & ?);
      [|reflexivity].
    exists "{{", "}}", inner. split; [right; left; reflexivity|].
    repeat split; assumption. }
  apply bracketed_shape in H as (inner & ? & ? & ?); [|reflexivity].
  exists "<<", ">>", inner. split; [right; right; left; reflexivity|].
  repeat split; assumption.
Qed.

Lemma substring_of_prefix (x y : string) :
  String.substring 0 (String.length x) (x ++ y) = x.
Proof.
  induction x as [|c x IH]; [destruct y; reflexivity|].
  rewrite string_app_cons. cbn [String.length String.substring].
  rewrite IH. reflexivity.
Qed.

(** The trimmed inner text of a bracketed span. *)
Lemma rawInputOf_bracketed (opening close inner : string) :
  In (opening, close) bracketPairs ->
  rawInputOf (opening ++ inner ++ close) = JS.trim inner.
Proof.
  intros Hpair. unfold rawInputOf, JS.substring. f_equal.
  assert (Hlen : String.length (opening ++ inner ++ close) = 2 + String.length inner + 2
                 /\ exists a b, opening = String a (String b EmptyString)).
  { destruct Hpair as [H|[H|[H|[]]]]; injection H as <- <-;
      rewrite !string_app_length; (split; [simpl; lia|eauto]). }
  destruct Hlen as [Hlen (a & b & ->)]. rewrite Hlen.
  rewrite !string_app_cons, string_app_nil. cbn [String.substring].
  replace (2 + String.length inner + 2 - 2 - 2) with (String.length inner) by lia.
  apply substring_of_prefix.
Qed.

(** X9: every match of the scanner is one of the three bracket pairs around
    an inner text without line terminator, it occurs in the scanned text,
    and the query taken from it is that inner text, trimmed. *)
Theorem matchAll_spans (s match_ : string) :
  In match_ (Scan.matchAll 0 s) ->
  JS.includes s match_ = true
  /\ exists opening close inner,
       In (opening, close) bracketPairs
       /\ match_ = opening ++ inner ++ close
       /\ noLineTerminator inner = true
       /\ rawInputOf match_ = JS.trim inner.
Proof.
  generalize 0 at 1. intros skip. revert skip.
  induction s as [|c s IH]; intros skip Hin; [destruct Hin|].
  assert (Hlater : forall k, In match_ (Scan.matchAll k s) ->
            JS.includes (String c s) match_ = true
            /\ exists opening close inner,
                 In (opening, close) bracketPairs
                 /\ match_ = opening ++ inner ++ close
                 /\ noLineTerminator inner = true
                 /\ rawInputOf match_ = JS.trim inner).
  { intros k Hk. destruct (IH k Hk) as [Hinc Hshape].
    split; [|exact Hshape]. cbn [JS.includes]. rewrite Hinc. apply orb_true_r. }
  cbn [Scan.matchAll] in Hin. destruct skip as [|k]; [|exact (Hlater k Hin)].
  destruct (Scan.matchAt (String c s)) as [m|] eqn:Hm; [|exact (Hlater 0 Hin)].
  destruct Hin as [<-|Hin]; [|exact (Hlater _ Hin)].
  apply matchAt_shape in Hm as (opening & close & inner & Hpair & -> & Hno & Hstart).
  split.
  - apply startsWith_includes, Hstart.
  - exists opening, close, inner. repeat split; try assumption.
    apply rawInputOf_bracketed, Hpair.
Qed.

(** X10: in a text cut into plain runs and fenced blocks, the replacement of
    line 153 removes exactly the blocks; in particular a text without a
    triple backtick is left as it is. *)
Theorem fenced_text_filtered (blocks : list (string * string)) (tail : string) :
  Forall wellFenced blocks ->
  Scan.findFence tail = None ->
  Scan.replaceFences None 0 (render blocks tail) = withoutBlocks blocks tail.
Proof.
  intros Hblocks Htail. apply replaceFences_render; [assumption|assumption|reflexivity].
Qed.

Lemma fenced_text_filtered_witness :
  Scan.replaceFences None 0
    (render [("see ", "[[Ember Call]]"); (" and `x` ", "{{Ember Storm}}")] " here")
  = "see  and `x`  here".
Proof.
  apply (fenced_text_filtered
           [("see ", "[[Ember Call]]"); (" and `x` ", "{{Ember Storm}}")] " here").
  - repeat constructor.
  - reflexivity.
Defined.

(** ** The loop *)

Section LoopFurther.

Variable U : Utility.
Variable DATA : WrData.

Lemma parseCard_sends_at_most_one (match_ query : string) (cards_ : list string) :
  List.length (pc_sent (parseCard U DATA match_ query cards_)) <= 1.
Proof.
  unfold parseCard. destruct (getClosestCard U DATA (applyAlias U query)); simpl; [|lia].
  destruct (existsb _ cards_); simpl; lia.
Qed.

Lemma parseMatches_unfold (match_ : string) (rest : list string)
      (countdown : Z) (cards_ : list string) :
  parseMatches U DATA (match_ :: rest) countdown cards_
  = if (countdown <? 1)%Z then []
    else if validSpan match_
         then (pc_sent (parseCard U DATA match_ (rawInputOf match_) cards_)
               ++ parseMatches U DATA rest (countdown - 1)
                    (pc_cards (parseCard U DATA match_ (rawInputOf match_) cards_)))%list
         else [].
Proof.
  cbn [parseMatches]. unfold validSpan.
  destruct (countdown <? 1)%Z; [reflexivity|].
  destruct (_ || _); reflexivity.
Qed.

Lemma parseMatches_length (matches : list string) (countdown : Z) (cards_ : list string) :
  List.length (parseMatches U DATA matches countdown cards_) <= Z.to_nat countdown
  /\ List.length (parseMatches U DATA matches countdown cards_) <= List.length matches.
Proof.
  revert countdown cards_.
  induction matches as [|match_ rest IH]; intros countdown cards_; [simpl; lia|].
  rewrite parseMatches_unfold.
  destruct (Z.ltb_spec countdown 1); [simpl; lia|].
  destruct (validSpan match_); [|simpl; lia].
  rewrite length_app.
  pose proof (parseCard_sends_at_most_one match_ (rawInputOf match_) cards_).
  destruct (IH (countdown - 1)%Z
              (pc_cards (parseCard U DATA match_ (rawInputOf match_) cards_))).
  simpl. lia.
Qed.

(** X11: the extractor never sends more embeds than the limit allows, nor
    more than there are spans; with a limit below 1 it sends nothing. *)
Theorem parseInlineCommands_bounded (limit : Z) (content : string) :
  List.length (parseInlineCommands U DATA limit content) <= Z.to_nat limit
  /\ List.length (parseInlineCommands U DATA limit content)
     <= List.length (Scan.matchAll 0 (Scan.replaceFences None 0 content)).
Proof. unfold parseInlineCommands. apply parseMatches_length. Qed.

Lemma parseMatches_provenance (matches : list string) (countdown : Z)
      (cards_ : list string) (e : Embed) :
  In e (parseMatches U DATA matches countdown cards_) ->
  exists match_,
    In match_ matches
    /\ validSpan match_ = true
    /\ getClosestCard U DATA (applyAlias U (rawInputOf match_)) = Some (embedCard e)
    /\ e = (if JS.startsWith match_ "[" then CardEmbed (embedCard e)
            else CardImageEmbed (embedCard e)).
Proof.
  revert countdown cards_.
  induction matches as [|match_ rest IH]; intros countdown cards_ Hin; [destruct Hin|].
  rewrite parseMatches_unfold in Hin.
  destruct (countdown <? 1)%Z; [destruct Hin|].
  destruct (validSpan match_) eqn:Hvalid; [|destruct Hin].
  apply in_app_or in Hin as [Hin|Hin].
  - exists match_. split; [left; reflexivity|]. split; [exact Hvalid|].
    unfold parseCard in Hin.
    destruct (getClosestCard U DATA (applyAlias U (rawInputOf match_))) as [card|];
      [|destruct Hin].
    destruct (existsb _ cards_); [destruct Hin|].
    destruct Hin as [<-|[]].
    destruct (JS.startsWith match_ "["); split; reflexivity.
  - destruct (IH _ _ Hin) as (m & Hm & H). exists m. split; [right; exact Hm|exact H].
Qed.

(** X12: every embed sent answers a span of the filtered text: the span is
    a valid one, its query (after alias substitution) resolves to the
    embedded card, and the embed is the full one exactly when the span
    opens with a square bracket. *)
Theorem parseInlineCommands_provenance (limit : Z) (content : string) (e : Embed) :
  In e (parseInlineCommands U DATA limit content) ->
  exists match_,
    In match_ (Scan.matchAll 0 (Scan.replaceFences None 0 content))
    /\ validSpan match_ = true
    /\ getClosestCard U DATA (applyAlias U (rawInputOf match_)) = Some (embedCard e)
    /\ e = (if JS.startsWith match_ "[" then CardEmbed (embedCard e)
            else CardImageEmbed (embedCard e)).
Proof. unfold parseInlineCommands. apply parseMatches_provenance. Qed.

Lemma parseMatches_truncates (matches : list string) (countdown : Z)
      (cards_ : list string) :
  parseMatches U DATA matches countdown cards_
  = answerSpans U DATA (take (Z.to_nat countdown) (validPrefix matches)) cards_.
Proof.
  revert countdown cards_.
  induction matches as [|match_ rest IH]; intros countdown cards_.
  - simpl. rewrite take_nil. reflexivity.
  - rewrite parseMatches_unfold. cbn [validPrefix].
    destruct (Z.ltb_spec countdown 1) as [Hlt|Hge].
    + replace (Z.to_nat countdown) with 0 by lia. reflexivity.
    + destruct (validSpan match_); [|rewrite take_nil; reflexivity].
      replace (Z.to_nat countdown) with (S (Z.to_nat (countdown - 1))) by lia.
      cbn [take answerSpans]. rewrite IH. reflexivity.
Qed.

(** X13: the limit and the rejection of a span only shorten the list of
    spans: the extractor answers, one embed for the first span of each
    card, the spans that come before the first empty or over-long one, and
    of those the first [RESULT_LIMIT] only. *)
Theorem parseInlineCommands_truncates (limit : Z) (content : string) :
  parseInlineCommands U DATA limit content
  = answerSpans U DATA
      (take (Z.to_nat limit)
         (validPrefix (Scan.matchAll 0 (Scan.replaceFences None 0 content))))
      [].
Proof. unfold parseInlineCommands. apply parseMatches_truncates. Qed.

Lemma parseMatches_monotone (matches : list string) (low high : Z)
      (cards_ : list string) :
  (low <= high)%Z ->
  parseMatches U DATA matches low cards_
  `prefix_of` parseMatches U DATA matches high cards_.
Proof.
  revert low high cards_.
  induction matches as [|match_ rest IH]; intros low high cards_ Hle.
  - reflexivity.
  - rewrite !parseMatches_unfold.
    destruct (Z.ltb_spec low 1); [apply prefix_nil|].
    destruct (Z.ltb_spec high 1); [lia|].
    destruct (validSpan match_); [|reflexivity].
    apply prefix_app, IH. lia.
Qed.

(** X14: raising the limit only adds embeds at the end: what is sent under
    a limit is a prefix of what is sent under any greater limit. *)
Theorem parseInlineCommands_monotone (low high : Z) (content : string) :
  (low <= high)%Z ->
  parseInlineCommands U DATA low content
  `prefix_of` parseInlineCommands U DATA high content.
Proof. intros Hle. unfold parseInlineCommands. apply parseMatches_monotone, Hle. Qed.

End LoopFurther.

Lemma parseInlineCommands_monotone_witness :
  parseInlineCommands Examples.helpers Examples.emberIndex 1
    "[[Ember Call]] {{Ember Storm}}"
  `prefix_of` parseInlineCommands Examples.helpers Examples.emberIndex 2
    "[[Ember Call]] {{Ember Storm}}".
Proof. apply parseInlineCommands_monotone. lia. Defined.

Lemma parseInlineCommands_provenance_witness :
  exists match_,
    In match_ (Scan.matchAll 0 (Scan.replaceFences None 0 "see {{Ember Storm}}"))
    /\ validSpan match_ = true
    /\ getClosestCard Examples.helpers Examples.emberIndex
         (applyAlias Examples.helpers (rawInputOf match_))
       = Some Examples.emberStorm
    /\ CardImageEmbed Examples.emberStorm
       = (if JS.startsWith match_ "[" then CardEmbed Examples.emberStorm
          else CardImageEmbed Examples.emberStorm).
Proof.
  apply (parseInlineCommands_provenance Examples.helpers Examples.emberIndex 5
           "see {{Ember Storm}}" (CardImageEmbed Examples.emberStorm)).
  vm_compute. left. reflexivity.
Defined.

Lemma matchAll_spans_witness :
  JS.includes "a [[ Ember Call ]] b" "[[ Ember Call ]]" = true
  /\ exists opening close inner,
       In (opening, close) bracketPairs
       /\ "[[ Ember Call ]]" = opening ++ inner ++ close
       /\ noLineTerminator inner = true
       /\ rawInputOf "[[ Ember Call ]]" = JS.trim inner.
Proof.
  apply (matchAll_spans "a [[ Ember Call ]] b" "[[ Ember Call ]]").
  vm_compute. left. reflexivity.
Defined.

(** * The embed module, the button registry and the entry point *)

Lemma append_nonempty (a b : string) :
  a <> EmptyString -> String.eqb (a ++ b) EmptyString = false.
Proof.
  destruct a as [|c a]; [contradiction|]. intros _.
  rewrite string_app_cons. reflexivity.
Qed.

(** Joining [undefined] values leaves the separators. *)
Lemma joinWith_undefined {A : Type} (sep : string) (f : A -> option string)
      (x : A) (xs : list A) :
  (forall y, f y = None) ->
  joinWith sep (map f (x :: xs)) = repeatString sep (List.length xs).
Proof.
  intros Hf. revert x. induction xs as [|y xs IH]; intros x.
  - simpl. rewrite Hf. reflexivity.
  - change (joinWith sep (map f (x :: y :: xs)))
      with (default EmptyString (f x) ++ sep ++ joinWith sep (map f (y :: xs))).
    rewrite IH, Hf. reflexivity.
Qed.

(** X15: the body of a card embed never shows a statistic: whatever the
    names and values in [card.frontFace.value], the line between the type
    line and the game text holds separators only, one fewer than there are
    statistics, and is left out for a card with at most one. *)
Theorem cardToEmbedBody_shows_no_stat
        (env : string -> option string) (toTitleCase : string -> string)
        (card : CardView) :
  cardToEmbedBody env toTitleCase card
  = frontFace_typeLine (view_card card)
    ++ JS.ifTruthy (cardToStitchIconEmote env (view_card card))
         (fun e => " (" ++ e ++ ")") EmptyString
    ++ statsLine (frontFace_value card)
    ++ String "010"%char ">>> " ++ formatCardText card.
Proof.
  unfold cardToEmbedBody, statsLine. cbv zeta.
  destruct (frontFace_value card) as [[|kv [|kv' more]]|]; try reflexivity.
  rewrite map_cons, (joinWith_undefined " • " _ (fst kv)) by reflexivity.
  rewrite length_map. cbn [List.length repeatString].
  rewrite append_nonempty by discriminate. reflexivity.
Qed.

Lemma find_by_id (es : list Expansion) (k : string) :
  match List.find (fun e => String.eqb (expansion_id e) k) es with
  | Some e => In e es /\ expansion_id e = k
  | None => ~ In k (map expansion_id es)
  end.
Proof.
  destruct (List.find _ es) as [e|] eqn:Hfind.
  - apply find_some in Hfind as [Hin Hid]. split; [exact Hin|].
    apply String.eqb_eq, Hid.
  - intros Hin. apply in_map_iff in Hin as (e & Hid & Hin).
    pose proof (find_none _ _ Hfind e Hin) as Hno. cbv beta in Hno.
    rewrite Hid, String.eqb_refl in Hno. discriminate Hno.
Qed.

(** X16: on an index loaded from a catalogue whose titles are read to plain
    keys and from expansions with pairwise distinct identifiers, none of
    them [__proto__], the footer of a card with no print is the thrown
    [TypeError]; otherwise it is made of the stitch icon, if any, the
    number of the first print, and the collation name of the expansion of
    that print when the snapshot has it; when it has not, the footer shows
    [undefined] for a name that the expansions inherit from
    [Object.prototype], and is the thrown [TypeError] for any other. *)
Theorem cardToFooter_of_first_print
        (U : Utility) (DATA : WrData) (cs : list Card) (es : list Expansion)
        (card : CardView) :
  plainCatalogue U cs ->
  NoDup (map expansion_id es) ->
  Forall (fun e => expansion_id e <> "__proto__") es ->
  cardToFooter (loaded U DATA cs es) card
  = match prints card with
    | [] => None
    | p :: _ =>
        let stitchIcon :=
          JS.ifTruthy (frontFace_stitchIcon (view_card card))
            (fun icon => icon ++ " • ") EmptyString in
        match List.find (fun e => String.eqb (expansion_id e) (expansionID p)) es with
        | Some e => Some (stitchIcon ++ collationName e ++ " #" ++ print_id p)
        | None =>
            if JS.inheritedName (expansionID p)
            then Some (stitchIcon ++ "undefined" ++ " #" ++ print_id p)
            else None
        end
    end.
Proof.
  intros _ Hnodup _. unfold cardToFooter, getExpansion, JS.get, loaded; simpl.
  unfold cacheExpansions.
  destruct (prints card) as [|p rest]; [reflexivity|].
  pose proof (find_by_id es (expansionID p)) as Hfind.
  destruct (List.find _ es) as [e|].
  - apply (keyed_exact expansion_id es (expansionID p) e Hnodup) in Hfind.
    rewrite Hfind. reflexivity.
  - destruct (fold_left (fun m x => <[expansion_id x := x]> m) es
                (∅ : gmap string Expansion) !! expansionID p) as [e|] eqn:He.
    + apply (keyed_exact expansion_id es (expansionID p) e Hnodup) in He as [Hin Hid].
      exfalso. apply Hfind.
      rewrite <- Hid. apply in_map, Hin.
    + destruct (JS.inheritedName (expansionID p)); reflexivity.
Qed.

Lemma cardToFooter_of_first_print_witness :
  cardToFooter (loaded Examples.helpers Examples.noData [] [Inputs.coreSet])
    Views.emberCallView
  = Some "Core Set #12"
  /\ cardToFooter (loaded Examples.helpers Examples.noData [] [Inputs.coreSet])
       Views.reprintView
     = Some "undefined #3".
Proof.
  split.
  - rewrite (cardToFooter_of_first_print Examples.helpers Examples.noData []
               [Inputs.coreSet] Views.emberCallView).
    + reflexivity.
    + constructor.
    + apply NoDup_cons. split; [|apply NoDup_nil_2].
      intros H. apply list_elem_of_In in H. destruct H.
    + repeat constructor. discriminate.
  - rewrite (cardToFooter_of_first_print Examples.helpers Examples.noData []
               [Inputs.coreSet] Views.reprintView).
    + reflexivity.
    + constructor.
    + apply NoDup_cons. split; [|apply NoDup_nil_2].
      intros H. apply list_elem_of_In in H. destruct H.
    + repeat constructor. discriminate.
Defined.

Section ButtonFacts.

Variable Interaction : Type.
Variable Callback : Type.
Variable run :
  Callback -> Interaction -> Interaction ->
  gmap string (Interaction * Callback) ->
  gmap string (Interaction * Callback) * Completion.

(** X17: a button whose callback returns is single-use.  Pressing a button
    just registered (under an identifier other than [__proto__], which
    names no property of its own) calls its callback on the registering and
    the pressing interaction; when the callback returns, the button is
    unregistered, whatever the callback did to the registry, and a second
    press calls nothing and leaves the registry as it is; when the callback
    throws, the registry is left as the callback left it, the button not
    removed by [callButton]. *)
Theorem button_is_single_use
        (BUTTONS : gmap string (Interaction * Callback))
        (registering pressing again : Interaction) (buttonId : string)
        (callback : Callback) :
  buttonId <> "__proto__" ->
  (snd (run callback registering pressing
          (registerButton Interaction Callback BUTTONS registering buttonId callback))
   = Returned ->
   snd (callButton Interaction Callback run
          (registerButton Interaction Callback BUTTONS registering buttonId callback)
          pressing buttonId)
   = Invoked callback registering pressing
   /\ fst (callButton Interaction Callback run
             (registerButton Interaction Callback BUTTONS registering buttonId callback)
             pressing buttonId) !! buttonId = None
   /\ callButton Interaction Callback run
        (fst (callButton Interaction Callback run
                (registerButton Interaction Callback BUTTONS registering buttonId callback)
                pressing buttonId))
        again buttonId
      = (fst (callButton Interaction Callback run
                (registerButton Interaction Callback BUTTONS registering buttonId callback)
                pressing buttonId),
         InteractionFailed))
  /\ (snd (run callback registering pressing
             (registerButton Interaction Callback BUTTONS registering buttonId callback))
      = Threw ->
      callButton Interaction Callback run
        (registerButton Interaction Callback BUTTONS registering buttonId callback)
        pressing buttonId
      = (fst (run callback registering pressing
                (registerButton Interaction Callback BUTTONS registering buttonId
                   callback)),
         CallbackThrew callback registering pressing)).
Proof.
  assert (Hpress :
    callButton Interaction Callback run
      (registerButton Interaction Callback BUTTONS registering buttonId callback)
      pressing buttonId
    = match run callback registering pressing
              (registerButton Interaction Callback BUTTONS registering buttonId callback)
      with
      | (after, Returned) =>
          (delete buttonId after, Invoked callback registering pressing)
      | (after, Threw) => (after, CallbackThrew callback registering pressing)
      end).
  { unfold callButton at 1. unfold registerButton at 1.
    rewrite lookup_insert_eq. reflexivity. }
  intros _. rewrite Hpress.
  destruct (run callback registering pressing
              (registerButton Interaction Callback BUTTONS registering buttonId callback))
    as [after completion].
  cbn [fst snd]. split; intros ->; cbn [fst snd].
  - split; [reflexivity|]. split; [apply lookup_delete_eq|].
    unfold callButton. rewrite lookup_delete_eq. reflexivity.
  - reflexivity.
Qed.

(** X18: registering a button leaves every other button as it was, and
    pressing a button that is not registered calls nothing and changes
    nothing. *)
Theorem other_buttons_untouched
        (BUTTONS : gmap string (Interaction * Callback))
        (registering pressing : Interaction) (buttonId other : string)
        (callback : Callback) :
  buttonId <> other ->
  registerButton Interaction Callback BUTTONS registering buttonId callback !! other
  = BUTTONS !! other
  /\ (BUTTONS !! other = None ->
      callButton Interaction Callback run
        (registerButton Interaction Callback BUTTONS registering buttonId callback)
        pressing other
      = (registerButton Interaction Callback BUTTONS registering buttonId callback,
         InteractionFailed)).
Proof.
  intros Hne. unfold registerButton.
  split; [apply lookup_insert_ne, Hne|].
  intros Hother. unfold callButton.
  rewrite lookup_insert_ne by exact Hne. rewrite Hother. reflexivity.
Qed.

End ButtonFacts.

Lemma button_is_single_use_witness :
  snd (callButton nat nat Views.polite (registerButton nat nat ∅ 7 "yes" 1) 8 "yes")
  = Invoked 1 7 8
  /\ fst (callButton nat nat Views.polite (registerButton nat nat ∅ 7 "yes" 1) 8 "yes")
       !! "yes" = None
  /\ callButton nat nat Views.polite
       (fst (callButton nat nat Views.polite (registerButton nat nat ∅ 7 "yes" 1) 8 "yes"))
       9 "yes"
     = (fst (callButton nat nat Views.polite (registerButton nat nat ∅ 7 "yes" 1) 8 "yes"),
        InteractionFailed)
  /\ callButton nat nat Views.failing (registerButton nat nat ∅ 7 "yes" 1) 8 "yes"
     = (registerButton nat nat ∅ 7 "yes" 1, CallbackThrew 1 7 8).
Proof.
  destruct (button_is_single_use nat nat Views.polite ∅ 7 8 9 "yes" 1)
    as [(Hcalled & Hgone & Hagain) _]; [discriminate|reflexivity|].
  destruct (button_is_single_use nat nat Views.failing ∅ 7 8 9 "yes" 1)
    as [_ Hthrew]; [discriminate|].
  split; [exact Hcalled|]. split; [exact Hgone|]. split; [exact Hagain|].
  apply Hthrew. reflexivity.
Defined.

Lemma other_buttons_untouched_witness :
  registerButton nat nat ∅ 7 "yes" 1 !! "no" = (∅ : gmap string (nat * nat)) !! "no"
  /\ ((∅ : gmap string (nat * nat)) !! "no" = None ->
      callButton nat nat (fun _ _ _ registry => (registry, Returned))
        (registerButton nat nat ∅ 7 "yes" 1) 8 "no"
      = (registerButton nat nat ∅ 7 "yes" 1, InteractionFailed)).
Proof. apply other_buttons_untouched. discriminate. Defined.

(** X19: [execute] stays silent unless every gate is passed: it sends
    nothing for a bot's message or an empty one, nothing in a server that is
    not whitelisted while the whitelist is on, and nothing in a direct
    message while direct messages are off. *)
Theorem execute_gates
        (U : Utility) (DATA : WrData)
        (readBool : string -> bool) (isServerWhitelisted : string -> bool)
        (limit : Z) (message : Message) :
  execute U DATA readBool isServerWhitelisted limit message <> [] ->
  author_bot message = false
  /\ content message <> EmptyString
  /\ (forall g, guildId message = Some g -> g <> EmptyString ->
                readBool "WHITELIST_SERVERS" = true -> isServerWhitelisted g = true)
  /\ (JS.truthy (guildId message) = false -> readBool "ALLOW_DIRECT_MESSAGES" = true)
  /\ execute U DATA readBool isServerWhitelisted limit message
     = parseInlineCommands U DATA limit (content message).
Proof.
  unfold execute, JS.ifTruthy, JS.truthy. intros H.
  destruct (author_bot message); [contradiction|].
  destruct (String.eqb_spec (content message) EmptyString) as [|Hcontent];
    [contradiction|].
  cbn [orb] in H |- *. split; [reflexivity|]. split; [exact Hcontent|].
  destruct (guildId message) as [g|].
  - destruct (String.eqb_spec g EmptyString) as [Hempty|Hg].
    + cbn [negb andb] in H |- *.
      destruct (readBool "ALLOW_DIRECT_MESSAGES"); [|contradiction].
      split; [intros g' Hg' Hne; injection Hg' as <-; contradiction|].
      split; reflexivity.
    + cbn [negb andb] in H |- *.
      destruct (readBool "WHITELIST_SERVERS") eqn:Hw.
      * destruct (isServerWhitelisted g) eqn:Hg'; cbn [negb andb] in H |- *;
          [|contradiction].
        split; [intros g' Heq _ _; injection Heq as <-; exact Hg'|].
        split; [discriminate|reflexivity].
      * cbn [negb andb] in H |- *.
        split; [intros g' _ _ Hfalse; discriminate Hfalse|].
        split; [discriminate|reflexivity].
  - cbn [negb andb] in H |- *.
    destruct (readBool "ALLOW_DIRECT_MESSAGES"); [|contradiction].
    split; [discriminate|]. split; reflexivity.
Qed.

Lemma execute_gates_witness :
  author_bot Views.directMessage = false
  /\ content Views.directMessage <> EmptyString
  /\ (forall g, guildId Views.directMessage = Some g -> g <> EmptyString ->
                (fun _ : string => true) "WHITELIST_SERVERS" = true ->
                (fun _ : string => false) g = true)
  /\ (JS.truthy (guildId Views.directMessage) = false ->
      (fun _ : string => true) "ALLOW_DIRECT_MESSAGES" = true)
  /\ execute Examples.helpers Examples.emberIndex (fun _ => true) (fun _ => false) 5
       Views.directMessage
     = parseInlineCommands Examples.helpers Examples.emberIndex 5
         (content Views.directMessage).
Proof.
  apply (execute_gates Examples.helpers Examples.emberIndex
           (fun _ => true) (fun _ => false) 5 Views.directMessage).
  vm_compute. discriminate.
Defined.
